(** * The falling-block game of [src/app/page.tsx]

    A shallow embedding of the game logic of the [Tetris] component: the
    shape table, [merge], [isColliding], [clearRows], the rotation, the
    commands [moveTetromino], [dropTetromino] and [rotateTetromino] and the
    handlers that call them, followed by the properties of the design
    document that concern them.

    Modelling conventions.
    - A JavaScript number that the program uses as a coordinate or as a
      cell is an integer; it is a [Z].  The sums [position.x + dir] and
      [position.y + 1] are exact on the safe integers ([safe_integer]);
      a property that depends on their value assumes the coordinate safe.
    - An array is the list of its elements.  Reading an index outside the
      array yields [undefined]; writing at an index past the end extends
      the array; writing at a negative index creates a property that is not
      an element, so that the list of elements is unchanged.  Array holes
      and [undefined] elements are not told apart: the program only tests
      cells for truthiness and with [=== 0].
    - Property access on [undefined] throws a [TypeError]; a computation
      that can throw returns a [result].
    - A command of the component reads the state of the current render and
      schedules updates; it is a function from the state to the state of
      the next render. *)

From Stdlib Require Import ZArith QArith Qround Lia.
From stdpp Require Import base tactics option list strings.
From Equations Require Import Equations.

Close Scope Q_scope.
Open Scope Z_scope.

(** ** Constants *)

Definition COLS : Z := 10.
Definition ROWS : Z := 20.

(** ** Values, arrays and exceptions *)

(** A cell read from an array: a number, or [undefined]. *)
Inductive value :=
  | Num (n : Z)
  | Undefined.

(** JavaScript truthiness of a cell ([if (cell)], [cell && ...]). *)
Definition truthy (v : value) : bool :=
  match v with
  | Num n => negb (n =? 0)
  | Undefined => false
  end.

(** [cell === 0]. *)
Definition is_zero (v : value) : bool :=
  match v with
  | Num 0 => true
  | _ => false
  end.

Abbreviation matrix := (list (list value)).

(** [a[i]] as an optional element: [None] stands for [undefined]. *)
Definition index {A : Type} (a : list A) (i : Z) : option A :=
  if decide (0 ≤ i) then a !! Z.to_nat i else None.

(** [row[i]] on an array of cells. *)
Definition read (row : list value) (i : Z) : value :=
  default Undefined (index row i).

(** [row[i] = v]: the elements of [row] after the assignment. *)
Definition write (row : list value) (i : Z) (v : value) : list value :=
  if decide (i < 0) then row
  else if decide (Z.to_nat i < length row)%nat then <[Z.to_nat i := v]> row
  else row ++ replicate (Z.to_nat i - length row) Undefined ++ [v].

(** The outcome of a computation that may throw. *)
Inductive result (A : Type) :=
  | Ok (a : A)
  | TypeError.
Arguments Ok {A} a.
Arguments TypeError {A}.

(** Sequencing: an exception aborts what follows ([x ← m; k]). *)
#[global] Instance result_bind : MBind result := λ A B k m,
  match m with
  | Ok a => k a
  | TypeError => TypeError
  end.

(** [m[i][j]], with [undefined] for a missing row or a missing cell. *)
Definition entry (m : matrix) (i j : Z) : value :=
  match index m i with
  | Some row => read row j
  | None => Undefined
  end.

(** [Array.prototype.map] with the index passed to the callback. *)
Fixpoint mapi_from {A B : Type} (f : A → Z → B) (k : Z) (l : list A) : list B :=
  match l with
  | [] => []
  | a :: l' => f a k :: mapi_from f (k + 1) l'
  end.

Definition mapi {A B : Type} (f : A → Z → B) (l : list A) : list B :=
  mapi_from f 0 l.

(** ** The shape table *)

Inductive TetrominoKey := K_0 | K_I | K_O | K_T | K_S | K_Z | K_J | K_L.

Definition cells (l : list Z) : list value := Num <$> l.

Definition TETROMINOS (key : TetrominoKey) : matrix :=
  match key with
  | K_0 => [cells [0]]
  | K_I => [cells [1; 1; 1; 1]]
  | K_O => [cells [1; 1];
            cells [1; 1]]
  | K_T => [cells [0; 1; 0];
            cells [1; 1; 1]]
  | K_S => [cells [0; 1; 1];
            cells [1; 1; 0]]
  | K_Z => [cells [1; 1; 0];
            cells [0; 1; 1]]
  | K_J => [cells [1; 0; 0];
            cells [1; 1; 1]]
  | K_L => [cells [0; 0; 1];
            cells [1; 1; 1]]
  end.

Definition tetrominos : list TetrominoKey := [K_I; K_O; K_T; K_S; K_Z; K_J; K_L].

(** [randomTetromino()].  The argument [random] is the number returned by
    [Math.random()], which lies in the interval [0, 1); the product and its
    floor are taken exactly.  The program rounds the product before taking
    the floor, which can move a draw to the next shape of the list but not
    out of the list; only that the shape is drawn from the list is used
    below.  [None] stands for [undefined], the value of
    [TETROMINOS[undefined]]. *)
Definition randomTetromino (random : Q) : option matrix :=
  let rand :=
    index tetrominos (Qfloor (random * inject_Z (Z.of_nat (length tetrominos)))) in
  TETROMINOS <$> rand.

(** [createGrid()]. *)
Definition createGrid : matrix :=
  replicate (Z.to_nat ROWS) (replicate (Z.to_nat COLS) (Num 0)).

(** A grid whose bottom row is full, above nineteen empty rows. *)
Definition bottom_full : matrix :=
  replicate 19 (replicate 10 (Num 0)) ++ [replicate 10 (Num 1)].

(** A grid with an occupied cell under the spawn position and another one
    at the left wall. *)
Definition crowded : matrix :=
  [cells [0; 0; 0; 0; 1; 0; 0; 0; 0; 0];
   cells [0; 0; 0; 0; 0; 0; 0; 0; 0; 0];
   cells [1; 0; 0; 0; 0; 0; 0; 0; 0; 0]]
  ++ replicate 17 (replicate 10 (Num 0)).

(** ** The state of the component *)

Record Position := mkPosition { x : Z; y : Z }.

Record State := mkState {
  grid : matrix;
  position : Position;
  tetromino : matrix;
  gameOver : bool;
  isPaused : bool
}.

(** The spawn position [{ x: Math.floor(COLS / 2) - 1, y: 0 }]. *)
Definition spawn : Position := mkPosition (COLS / 2 - 1) 0.

(** ** [merge] *)

(** [newGrid[i][j] = v]: throws when [newGrid[i]] is [undefined]. *)
Definition store (newGrid : matrix) (i j : Z) (v : value) : result matrix :=
  match index newGrid i with
  | Some row => Ok (<[Z.to_nat i := write row j v]> newGrid)
  | None => TypeError
  end.

(** The inner [row.forEach((cell, c) => ...)] of [merge], from column [c]. *)
Fixpoint merge_cells (position : Position) (r c : Z) (row : list value)
    (newGrid : matrix) : result matrix :=
  match row with
  | [] => Ok newGrid
  | cell :: rest =>
      newGrid' ← (if truthy cell
                     && bool_decide (y position + r < ROWS)
                     && bool_decide (x position + c < COLS)
                  then store newGrid (y position + r) (x position + c) cell
                  else Ok newGrid);
      merge_cells position r (c + 1) rest newGrid'
  end.

(** The outer [tetromino.forEach((row, r) => ...)] of [merge], from row [r]. *)
Fixpoint merge_rows (position : Position) (r : Z) (tetromino : matrix)
    (newGrid : matrix) : result matrix :=
  match tetromino with
  | [] => Ok newGrid
  | row :: rest =>
      newGrid' ← merge_cells position r 0 row newGrid;
      merge_rows position (r + 1) rest newGrid'
  end.

Definition merge (grid : matrix) (tetromino : matrix) (position : Position)
    : result matrix :=
  let newGrid := (fun row => row) <$> grid in
  merge_rows position 0 tetromino newGrid.

(** ** [isColliding] *)

(** The collision test is written over the evaluation of the probe
    [grid[newY]?.[newX]], so that the same loops can also be run with a
    probe that faults outside the grid. *)
Section Collision.
Variable probe : matrix → Z → Z → result value.

(** The condition of the [if] inside the loops, with the short-circuit
    order of [||] and [&&]. *)
Definition blocked (grid : matrix) (newY newX : Z) : result bool :=
  if decide (ROWS ≤ newY) then Ok true
  else if decide (newX < 0) then Ok true
  else if decide (COLS ≤ newX) then Ok true
  else if decide (0 ≤ newY) then v ← probe grid newY newX; Ok (truthy v)
  else Ok false.

(** The inner loop [for (let c = 0; c < tetromino[r].length; c++)], from
    column [c]; [Ok true] is the early [return true]. *)
Fixpoint scan_cells (grid : matrix) (pos : Position) (r c : Z)
    (row : list value) : result bool :=
  match row with
  | [] => Ok false
  | cell :: rest =>
      hit ← (if truthy cell then blocked grid (y pos + r) (x pos + c)
             else Ok false);
      if hit : bool then Ok true else scan_cells grid pos r (c + 1) rest
  end.

(** The outer loop [for (let r = 0; r < tetromino.length; r++)], from row
    [r]. *)
Fixpoint scan_rows (grid : matrix) (pos : Position) (r : Z)
    (tetromino : matrix) : result bool :=
  match tetromino with
  | [] => Ok false
  | row :: rest =>
      hit ← scan_cells grid pos r 0 row;
      if hit : bool then Ok true else scan_rows grid pos (r + 1) rest
  end.

Definition isColliding_with (grid : matrix) (tetromino : matrix)
    (pos : Position) : result bool :=
  scan_rows grid pos 0 tetromino.
End Collision.

(** [grid[newY]?.[newX]]: [undefined] when the row or the cell is missing. *)
Definition optional_chain (grid : matrix) (newY newX : Z) : result value :=
  Ok (entry grid newY newX).

(** A probe that faults at every coordinate outside the grid. *)
Definition checked_probe (grid : matrix) (newY newX : Z) : result value :=
  match index grid newY ≫= (λ row, index row newX) with
  | Some v => Ok v
  | None => TypeError
  end.

Definition isColliding : matrix → matrix → Position → result bool :=
  isColliding_with optional_chain.

(** ** [clearRows] *)

(** [row.some((cell) => cell === 0)]. *)
Definition has_empty_cell (row : list value) : bool := existsb is_zero row.

(** [Array(COLS).fill(0)]. *)
Definition empty_row : list value := replicate (Z.to_nat COLS) (Num 0).

(** [while (newGrid.length < ROWS) newGrid.unshift(Array(COLS).fill(0))]. *)
Equations? unshift_rows (newGrid : matrix) : matrix
    by wf (Z.to_nat (ROWS - Z.of_nat (length newGrid))) lt :=
  unshift_rows newGrid with decide (Z.of_nat (length newGrid) < ROWS) => {
    | left _ => unshift_rows (empty_row :: newGrid)
    | right _ => newGrid }.
Proof. simpl. lia. Qed.

(** The pair [{ newGrid, clearedRows }]. *)
Definition clearRows (grid : matrix) : matrix * Z :=
  let newGrid := List.filter has_empty_cell grid in
  let clearedRows := ROWS - Z.of_nat (length newGrid) in
  (unshift_rows newGrid, clearedRows).

(** ** Rotation *)

(** The expression bound to [rotated] in [rotateTetromino]; reading
    [tetromino[0]] of an empty matrix gives [undefined], whose [map]
    throws. *)
Definition rotate (tetromino : matrix) : result matrix :=
  match index tetromino 0 with
  | Some row0 =>
      Ok (mapi (λ _ idx, reverse ((λ row, read row idx) <$> tetromino)) row0)
  | None => TypeError
  end.

(** ** The commands *)

Definition set_position (s : State) (p : Position) : State :=
  mkState (grid s) p (tetromino s) (gameOver s) (isPaused s).

Definition set_tetromino (s : State) (t : matrix) : State :=
  mkState (grid s) (position s) t (gameOver s) (isPaused s).

Definition set_gameOver (s : State) (b : bool) : State :=
  mkState (grid s) (position s) (tetromino s) b (isPaused s).

Definition moveTetromino (dir : Z) (s : State) : result State :=
  if isPaused s || gameOver s then Ok s
  else
    let newPos := mkPosition (x (position s) + dir) (y (position s)) in
    colliding ← isColliding (grid s) (tetromino s) newPos;
    if negb colliding then Ok (set_position s newPos) else Ok s.

(** [dropTetromino]; [random] is the number that [Math.random()] returns
    when the piece locks.  A new piece that is [undefined] makes the next
    render throw ([merge] calls [tetromino.forEach]). *)
Definition dropTetromino (random : Q) (s : State) : result State :=
  if isPaused s || gameOver s then Ok s
  else
    let newPos := mkPosition (x (position s)) (y (position s) + 1) in
    colliding ← isColliding (grid s) (tetromino s) newPos;
    if negb colliding then Ok (set_position s newPos)
    else if decide (y (position s) = 0) then Ok (set_gameOver s true)
    else
      mergedGrid ← merge (grid s) (tetromino s) (position s);
      let '(newGrid, _) := clearRows mergedGrid in
      match randomTetromino random with
      | Some piece => Ok (mkState newGrid spawn piece (gameOver s) (isPaused s))
      | None => TypeError
      end.

Definition rotateTetromino (s : State) : result State :=
  if isPaused s || gameOver s then Ok s
  else
    rotated ← rotate (tetromino s);
    colliding ← isColliding (grid s) rotated (position s);
    if negb colliding then Ok (set_tetromino s rotated) else Ok s.

(** The keys that [handleKeyPress] tells apart. *)
Inductive Key := ArrowLeft | ArrowRight | ArrowDown | ArrowUp | OtherKey.

Definition handleKeyPress (random : Q) (key : Key) (s : State) : result State :=
  if isPaused s || gameOver s then Ok s
  else
    match key with
    | ArrowLeft => moveTetromino (-1) s
    | ArrowRight => moveTetromino 1 s
    | ArrowDown => dropTetromino random s
    | ArrowUp => rotateTetromino s
    | OtherKey => Ok s
    end.

(** The callback that [setInterval] runs every 500 ms. *)
Definition interval (random : Q) (s : State) : result State :=
  if negb (isPaused s) && negb (gameOver s) then dropTetromino random s
  else Ok s.

(** [handlePauseResume]. *)
Definition handlePauseResume (s : State) : State :=
  mkState (grid s) (position s) (tetromino s) (gameOver s) (negb (isPaused s)).

(** The status of the design document, read off the two flags. *)
Definition running (s : State) : Prop := isPaused s = false ∧ gameOver s = false.

(** A running game whose one-cell piece rests on the cell at the left wall
    of [crowded]. *)
Definition resting : State :=
  mkState crowded (mkPosition 0 1) [[Num 1]] false false.

(** A running game whose piece is at the top row of [crowded], right
    above the occupied cell at the left wall. *)
Definition stuck : State :=
  mkState crowded (mkPosition 0 0) (TETROMINOS K_O) false false.

(** A paused game. *)
Definition paused : State :=
  mkState createGrid spawn (TETROMINOS K_T) false true.

(** ** Vocabulary of the properties *)

(** The piece has a filled cell at row [r], column [c] of its matrix. *)
Definition filled (tetromino : matrix) (r c : Z) : Prop :=
  truthy (entry tetromino r c) = true.

(** The cell at row [i], column [j] of the grid is occupied. *)
Definition occupied (grid : matrix) (i j : Z) : Prop :=
  truthy (entry grid i j) = true.

(** What makes a filled cell that lands on row [newY], column [newX]
    collide. *)
Definition obstructed (grid : matrix) (newY newX : Z) : Prop :=
  ROWS ≤ newY ∨ newX < 0 ∨ COLS ≤ newX ∨ (0 ≤ newY ∧ occupied grid newY newX).

(** A matrix of [R] rows of [C] cells each. *)
Definition rect (R C : nat) (m : matrix) : Prop :=
  length m = R ∧ Forall (λ row, length row = C) m.

(** A grid of [ROWS] rows. *)
Definition has_rows (grid : matrix) : Prop := Z.of_nat (length grid) = ROWS.

(** A grid of [ROWS] rows of [COLS] cells. *)
Definition well_formed (grid : matrix) : Prop :=
  rect (Z.to_nat ROWS) (Z.to_nat COLS) grid.

(** The rotation applied [n] times in a row. *)
Fixpoint rotate_times (n : nat) (m : matrix) : result matrix :=
  match n with
  | O => Ok m
  | S k => m' ← rotate m; rotate_times k m'
  end.

(** The shapes that a draw can return. *)
Definition standard_shapes : list matrix := TETROMINOS <$> tetrominos.

(** ** The remaining handlers, the rendering and the event loop *)

(** [handleRestart]; [random] is the number that [Math.random()] returns
    for the new piece. *)
Definition handleRestart (random : Q) (s : State) : result State :=
  match randomTetromino random with
  | Some piece => Ok (mkState createGrid spawn piece false false)
  | None => TypeError
  end.

(** The state of the first render: the initial values of the five
    [useState] calls. *)
Definition initialState (random : Q) : result State :=
  match randomTetromino random with
  | Some piece => Ok (mkState createGrid spawn piece false false)
  | None => TypeError
  end.

(** The background colours of the cells of the board, in the order of the
    [div]s: [merge(grid, tetromino, position).flat().map(...)] with
    [cell === 0 ? "#fff" : "#000"]. *)
Definition render (s : State) : result (list string) :=
  merged ← merge (grid s) (tetromino s) (position s);
  Ok ((λ cell, if is_zero cell then "#fff" else "#000") <$> concat merged).

(** The heading [gameOver ? "Game Over" : "Tetris"]. *)
Definition heading (s : State) : string :=
  if gameOver s then "Game Over" else "Tetris".

(** What the component reacts to: a key, the timer and the two buttons. *)
Inductive Event :=
  | KeyDown (key : Key)
  | Timer
  | PauseButton
  | RestartButton.

Definition handle (random : Q) (e : Event) (s : State) : result State :=
  match e with
  | KeyDown key => handleKeyPress random key s
  | Timer => interval random s
  | PauseButton => Ok (handlePauseResume s)
  | RestartButton => handleRestart random s
  end.

(** A run of the component: every event is handled in the state of the
    render that follows the previous event, and the board is rendered
    after each of them.  Each event comes with the number that
    [Math.random()] returns if the event draws a piece. *)
Fixpoint run (events : list (Q * Event)) (s : State) : result State :=
  match events with
  | [] => Ok s
  | (random, e) :: rest =>
      s' ← handle random e s;
      _ ← render s';
      run rest s'
  end.

(** The piece of the state does not collide where it is. *)
Definition placed (s : State) : Prop :=
  isColliding (grid s) (tetromino s) (position s) = Ok false.

(** A piece matrix that is rectangular with at least one row and one
    column. *)
Definition proper_piece (t : matrix) : Prop :=
  ∃ R C, (0 < R)%nat ∧ (0 < C)%nat ∧ rect R C t.

(** The states in which the component keeps its grid dimensions and
    never throws. *)
Definition sound (s : State) : Prop :=
  well_formed (grid s) ∧ proper_piece (tetromino s) ∧ 0 ≤ y (position s).

(** The integers on which adding or subtracting 1 is exact in the
    arithmetic of the program ([Number.isSafeInteger]). *)
Definition safe_integer (n : Z) : Prop := - 2 ^ 53 < n < 2 ^ 53.

(** A number that [Math.random()] can return. *)
Definition unit_interval (random : Q) : Prop := (0 <= random)%Q ∧ (random < 1)%Q.

(** * Properties *)

(** Case analysis on every [decide] of the goal. *)
Ltac decide_goal :=
  repeat match goal with
         | |- context [decide ?P] => destruct (decide P)
         end.

(** Breaks the conjunctions of the context, and replaces every hypothesis
    that a cell read from a row or from a matrix is truthy by the range
    of its indices. *)
Ltac truthy_ranges range_lemma :=
  repeat match goal with H : _ ∧ _ |- _ => destruct H end;
  repeat match goal with
         | H : truthy _ = true |- _ => apply range_lemma in H
         end.

(** ** Arrays *)

Lemma index_Some {A} (a : list A) i v :
  index a i = Some v ↔ 0 ≤ i ∧ a !! Z.to_nat i = Some v.
Proof.
  unfold index. case_decide.
  - split; [intros; split; [lia | done] | intros [_ ?]; done].
  - split; [done | intros [? _]; lia].
Qed.

Lemma index_is_Some {A} (a : list A) i :
  is_Some (index a i) ↔ 0 ≤ i < Z.of_nat (length a).
Proof.
  unfold index. case_decide.
  - rewrite lookup_lt_is_Some. lia.
  - split; [intros [? ?]; discriminate | lia].
Qed.

Lemma index_None {A} (a : list A) i :
  index a i = None ↔ i < 0 ∨ Z.of_nat (length a) ≤ i.
Proof. rewrite eq_None_not_Some, index_is_Some. lia. Qed.

Lemma index_cons {A} (a : A) (l : list A) i :
  index (a :: l) i = if decide (i = 0) then Some a else index l (i - 1).
Proof.
  unfold index. repeat case_decide; try lia; subst; try done.
  replace (Z.to_nat i) with (S (Z.to_nat (i - 1))) by lia. done.
Qed.

Lemma read_cons v row i :
  read (v :: row) i = if decide (i = 0) then v else read row (i - 1).
Proof. unfold read. rewrite index_cons. by case_decide. Qed.

Lemma read_truthy_range row i :
  truthy (read row i) = true → 0 ≤ i < Z.of_nat (length row).
Proof.
  intros H. apply index_is_Some. unfold read in H.
  destruct (index row i); [eauto | discriminate].
Qed.

Lemma entry_cons row m i j :
  entry (row :: m) i j = if decide (i = 0) then read row j else entry m (i - 1) j.
Proof. unfold entry. rewrite index_cons. by case_decide. Qed.

Lemma entry_nil i j : entry [] i j = Undefined.
Proof. unfold entry, index. case_decide; done. Qed.

Lemma filled_range t r c :
  filled t r c → 0 ≤ r < Z.of_nat (length t) ∧ 0 ≤ c.
Proof.
  unfold filled, entry. intros H.
  destruct (index t r) as [row|] eqn:E; [|discriminate].
  split; [apply index_is_Some; eauto | apply read_truthy_range in H; lia].
Qed.

Lemma write_neg row i v : i < 0 → write row i v = row.
Proof. intros. unfold write. by case_decide. Qed.

(** Reading after [row[i] = v], for an index [i] that denotes an element. *)
Lemma read_write row i v k :
  0 ≤ i → read (write row i v) k = if decide (k = i) then v else read row k.
Proof.
  intros Hi. unfold write, read, index.
  destruct (decide (i < 0)); [lia|].
  destruct (decide (0 ≤ k)) as [Hk|Hk]; [|destruct (decide (k = i)); [lia|done]].
  destruct (decide (Z.to_nat i < length row)%nat) as [Hlt|Hlt].
  - destruct (decide (k = i)); subst.
    + by rewrite list_lookup_insert_eq.
    + rewrite list_lookup_insert_ne by lia. done.
  - destruct (decide (k = i)); subst.
    + rewrite lookup_app_r by lia.
      rewrite lookup_app_r; rewrite length_replicate; [|lia].
      replace (_ - _ - _)%nat with 0%nat by lia. done.
    + destruct (decide (Z.to_nat k < length row)%nat).
      * by rewrite lookup_app_l.
      * rewrite lookup_app_r by lia. rewrite (lookup_ge_None_2 row) by lia.
        destruct (decide (Z.to_nat k < Z.to_nat i)%nat).
        -- rewrite lookup_app_l by (rewrite length_replicate; lia).
           rewrite lookup_replicate_2 by lia. done.
        -- rewrite lookup_ge_None_2; [done|].
           rewrite length_app, length_replicate. simpl. lia.
Qed.
(** ** Collision *)

Lemma blocked_chain grid newY newX :
  ∃ b, blocked optional_chain grid newY newX = Ok b
       ∧ (b = true ↔ obstructed grid newY newX).
Proof.
  unfold blocked, optional_chain, obstructed, occupied.
  repeat case_decide; simpl; eexists; (split; [reflexivity|]).
  all: try (split; [lia | done]).
  - split; [auto 10 | intros [?|[?|[?|[? ?]]]]; try lia; done].
  - split; [done | lia].
Qed.

Lemma scan_cells_chain grid pos r c row :
  ∃ b, scan_cells optional_chain grid pos r c row = Ok b
       ∧ (b = true ↔ ∃ k, truthy (read row k) = true
                          ∧ obstructed grid (y pos + r) (x pos + c + k)).
Proof.
  revert c. induction row as [|cell rest IH]; intros c; simpl.
  - exists false. split; [done|]. split; [done|].
    intros (k & Hk & _). apply read_truthy_range in Hk. simpl in Hk. lia.
  - destruct (IH (c + 1)) as (b' & Hb' & Hiff). rewrite Hb'. clear IH Hb'.
    assert (Hrest : b' = true ↔ ∃ k, k ≠ 0 ∧ truthy (read (cell :: rest) k) = true
                      ∧ obstructed grid (y pos + r) (x pos + c + k)).
    { rewrite Hiff. split.
      - intros (k & Hk & Ho). exists (k + 1). pose proof (read_truthy_range _ _ Hk).
        rewrite read_cons. case_decide; [lia|].
        replace (k + 1 - 1) with k by lia.
        replace (x pos + c + (k + 1)) with (x pos + (c + 1) + k) by lia. split; [lia|done].
      - intros (k & Hne & Hk & Ho). exists (k - 1).
        rewrite read_cons in Hk. case_decide; [done|].
        replace (x pos + (c + 1) + (k - 1)) with (x pos + c + k) by lia. done. }
    clear Hiff.
    destruct (truthy cell) eqn:Hcell.
    + destruct (blocked_chain grid (y pos + r) (x pos + c)) as (b & -> & Hb). simpl.
      destruct b.
      * exists true. split; [done|]. split; [|done]. intros _. exists 0.
        rewrite read_cons. case_decide; [|lia]. rewrite Z.add_0_r. split; [done|].
        by apply Hb.
      * exists b'. split; [done|]. rewrite Hrest. split.
        -- intros (k & _ & ?). eauto.
        -- intros (k & Hk & Ho). exists k. split; [|done]. intros ->.
           rewrite Z.add_0_r in Ho. apply Hb in Ho. done.
    + simpl. exists b'. split; [done|]. rewrite Hrest. split.
      * intros (k & _ & ?). eauto.
      * intros (k & Hk & Ho). exists k. split; [|done]. intros ->.
        rewrite read_cons in Hk. case_decide; [|lia]. congruence.
Qed.

Lemma scan_rows_chain grid pos r t :
  ∃ b, scan_rows optional_chain grid pos r t = Ok b
       ∧ (b = true ↔ ∃ i j, filled t i j
                            ∧ obstructed grid (y pos + r + i) (x pos + j)).
Proof.
  revert r. induction t as [|row rest IH]; intros r; simpl.
  - exists false. split; [done|]. split; [done|].
    intros (i & j & Hf & _). unfold filled in Hf. rewrite entry_nil in Hf. done.
  - destruct (scan_cells_chain grid pos r 0 row) as (b & -> & Hb). simpl.
    destruct (IH (r + 1)) as (b' & Hb' & Hiff). clear IH.
    destruct b.
    + exists true. split; [done|]. split; [|done]. intros _.
      destruct Hb as [Hb _]. destruct (Hb eq_refl) as (k & Hk & Ho).
      exists 0, k. unfold filled. rewrite entry_cons. case_decide; [|lia].
      split; [done|]. replace (y pos + r + 0) with (y pos + r) by lia.
      replace (x pos + 0 + k) with (x pos + k) in Ho by lia. done.
    + exists b'. split; [done|]. rewrite Hiff. split.
      * intros (i & j & Hf & Ho). exists (i + 1), j. unfold filled in *.
        apply filled_range in Hf as Hr.
        rewrite entry_cons. case_decide; [lia|].
        replace (i + 1 - 1) with i by lia.
        replace (y pos + r + (i + 1)) with (y pos + (r + 1) + i) by lia. done.
      * intros (i & j & Hf & Ho). unfold filled in Hf. rewrite entry_cons in Hf.
        case_decide.
        -- subst. exfalso. assert (false = true); [|done]. apply Hb.
           exists j. split; [done|].
           replace (y pos + r + 0) with (y pos + r) in Ho by lia.
           replace (x pos + 0 + j) with (x pos + j) by lia. done.
        -- exists (i - 1), j. split; [done|].
           replace (y pos + (r + 1) + (i - 1)) with (y pos + r + i) by lia. done.
Qed.

(** [isColliding] returns a boolean, [true] exactly when a filled cell of
    the piece is obstructed where it lands. *)
Lemma isColliding_spec grid t pos :
  ∃ b, isColliding grid t pos = Ok b
       ∧ (b = true ↔ ∃ r c, filled t r c ∧ obstructed grid (y pos + r) (x pos + c)).
Proof.
  destruct (scan_rows_chain grid pos 0 t) as (b & Hb & Hiff).
  exists b. split; [done|]. rewrite Hiff.
  split; intros (i & j & Hf & Ho); exists i, j; split; try done.
  - by replace (y pos + 0 + i) with (y pos + i) in Ho by lia.
  - by replace (y pos + 0 + i) with (y pos + i) by lia.
Qed.

(** C2. [isColliding] returns a boolean, and it returns [true] exactly when
    some filled cell of the piece, placed at the position, lands on a row
    [>= ROWS], on a column [< 0] or [>= COLS], or, only when its row is
    [>= 0], on an occupied cell of the grid.  In particular a filled cell
    outside the columns [0 .. COLS-1] makes it [true] whatever its row, and
    filled cells on negative rows are not tested for occupancy: a piece
    that lies within the side walls and entirely above row 0 does not
    collide, whatever the grid holds. *)
Theorem isColliding_iff (grid tetromino : matrix) (pos : Position) :
  (isColliding grid tetromino pos = Ok true
   ∨ isColliding grid tetromino pos = Ok false)
  ∧ (isColliding grid tetromino pos = Ok true ↔
       ∃ r c, filled tetromino r c
              ∧ (ROWS ≤ y pos + r
                 ∨ x pos + c < 0
                 ∨ COLS ≤ x pos + c
                 ∨ (0 ≤ y pos + r ∧ occupied grid (y pos + r) (x pos + c))))
  ∧ (∀ r c, filled tetromino r c → x pos + c < 0 ∨ COLS ≤ x pos + c →
            isColliding grid tetromino pos = Ok true)
  ∧ ((∀ r c, filled tetromino r c → y pos + r < 0 ∧ 0 ≤ x pos + c < COLS) →
     isColliding grid tetromino pos = Ok false).
Proof.
  destruct (isColliding_spec grid tetromino pos) as (b & Hb & Hiff).
  fold (obstructed grid) in *. rewrite Hb.
  split; [destruct b; auto|].
  split; [|split].
  - rewrite <- Hiff. split; congruence.
  - intros r c Hf Hx. f_equal. apply Hiff. exists r, c. unfold obstructed. tauto.
  - intros Habove. f_equal. destruct b; [|done]. exfalso.
    destruct Hiff as [Hiff _]. destruct (Hiff eq_refl) as (r & c & Hf & Ho).
    destruct (Habove r c Hf) as [Hy Hx]. unfold obstructed in Ho.
    assert (ROWS = 20) by done. lia.
Qed.

Lemma well_formed_index grid i :
  well_formed grid → 0 ≤ i < ROWS →
  ∃ row, index grid i = Some row ∧ Z.of_nat (length row) = COLS.
Proof.
  intros [Hlen Hrows] Hi.
  destruct (index grid i) as [row|] eqn:E.
  - exists row. split; [done|]. apply index_Some in E as [_ E].
    rewrite Forall_lookup in Hrows. rewrite (Hrows _ _ E). done.
  - apply index_None in E. lia.
Qed.

Lemma checked_probe_defined grid i j :
  well_formed grid → 0 ≤ i < ROWS → 0 ≤ j < COLS →
  checked_probe grid i j = optional_chain grid i j.
Proof.
  intros Hwf Hi Hj. unfold checked_probe, optional_chain, entry, read.
  destruct (well_formed_index grid i Hwf Hi) as (row & -> & Hlen). simpl.
  destruct (index row j) eqn:E; [done|]. apply index_None in E. lia.
Qed.

Lemma blocked_checked grid newY newX :
  well_formed grid →
  blocked checked_probe grid newY newX = blocked optional_chain grid newY newX.
Proof.
  intros Hwf. unfold blocked. repeat case_decide; try done.
  rewrite checked_probe_defined; [done | done | lia | lia].
Qed.

Lemma scan_cells_checked grid pos r c row :
  well_formed grid →
  scan_cells checked_probe grid pos r c row
  = scan_cells optional_chain grid pos r c row.
Proof.
  intros Hwf. revert c. induction row as [|cell rest IH]; intros c; simpl; [done|].
  rewrite IH, blocked_checked by done. done.
Qed.

Lemma scan_rows_checked grid pos r t :
  well_formed grid →
  scan_rows checked_probe grid pos r t = scan_rows optional_chain grid pos r t.
Proof.
  intros Hwf. revert r. induction t as [|row rest IH]; intros r; simpl; [done|].
  rewrite IH, scan_cells_checked by done. done.
Qed.

Lemma optional_chain_outside grid i j :
  well_formed grid → ¬ (0 ≤ i < ROWS ∧ 0 ≤ j < COLS) →
  optional_chain grid i j = Ok Undefined.
Proof.
  intros Hwf Hout. unfold optional_chain, entry. f_equal.
  destruct (index grid i) as [row|] eqn:E; [|done].
  assert (0 ≤ i < ROWS) as Hi.
  { destruct Hwf as [Hlen _]. pose proof (proj1 (index_is_Some grid i) (mk_is_Some _ _ E)). lia. }
  destruct (well_formed_index grid i Hwf Hi) as (row' & E' & Hlen).
  assert (row' = row) as -> by congruence.
  unfold read. destruct (index row j) eqn:Ej; [|done].
  pose proof (proj1 (index_is_Some row j) (mk_is_Some _ _ Ej)). lia.
Qed.

(** C9. On a grid of [ROWS] rows of [COLS] cells, [isColliding] returns a
    boolean for every piece and every position, without throwing.  A probe
    [grid[newY]?.[newX]] outside the grid evaluates to [undefined], which
    counts as unoccupied, and the loops only evaluate the probe at
    coordinates inside the grid: run with a probe that faults outside the
    grid, they give the same boolean. *)
Theorem isColliding_total (grid tetromino : matrix) (pos : Position) :
  well_formed grid →
  (∃ b, isColliding grid tetromino pos = Ok b)
  ∧ isColliding_with checked_probe grid tetromino pos
    = isColliding grid tetromino pos
  ∧ (∀ i j, ¬ (0 ≤ i < ROWS ∧ 0 ≤ j < COLS) →
            optional_chain grid i j = Ok Undefined)
  ∧ truthy Undefined = false.
Proof.
  intros Hwf. split; [|split; [|split]].
  - destruct (isColliding_spec grid tetromino pos) as (b & Hb & _). eauto.
  - unfold isColliding, isColliding_with. by apply scan_rows_checked.
  - intros i j. by apply optional_chain_outside.
  - done.
Qed.

Lemma isColliding_total_witness :
  well_formed createGrid
  ∧ (∃ b, isColliding createGrid (TETROMINOS K_T) (mkPosition (-3) (-2)) = Ok b).
Proof.
  assert (Hwf : well_formed createGrid).
  { split; [reflexivity | apply Forall_replicate; reflexivity]. }
  split; [exact Hwf|].
  apply (isColliding_total createGrid (TETROMINOS K_T) (mkPosition (-3) (-2)) Hwf).
Defined.

(** ** Row clearing *)


(** The loop puts on top the rows that are missing up to [ROWS]. *)
Lemma unshift_rows_spec newGrid :
  unshift_rows newGrid
  = replicate (Z.to_nat (ROWS - Z.of_nat (length newGrid))) empty_row ++ newGrid.
Proof.
  funelim (unshift_rows newGrid).
  - rewrite H. simpl length.
    replace (Z.to_nat (ROWS - Z.of_nat (length newGrid)))
      with (S (Z.to_nat (ROWS - Z.of_nat (S (length newGrid))))) by lia.
    rewrite replicate_S_end. rewrite <- app_assoc. done.
  - replace (Z.to_nat (ROWS - Z.of_nat (length newGrid))) with 0%nat by lia. done.
Qed.

Lemma filter_split_length {A} (f : A → bool) (l : list A) :
  (length (List.filter f l) + length (List.filter (λ a, negb (f a)) l))%nat
  = length l.
Proof. induction l as [|a l IH]; simpl; [done|]. destruct (f a); simpl; lia. Qed.

Lemma has_empty_cell_iff row : has_empty_cell row = true ↔ Num 0 ∈ row.
Proof.
  unfold has_empty_cell. rewrite existsb_exists. split.
  - intros (cell & Hin & Hz). apply list_elem_of_In in Hin.
    destruct cell as [[| |]|]; try discriminate. done.
  - intros Hin. exists (Num 0). split; [by apply list_elem_of_In | done].
Qed.

(** C3. On a grid of [ROWS] rows, [clearRows] keeps exactly the rows that
    contain an empty cell, in their order, and puts above them as many
    rows of [COLS] empty cells as there were rows without an empty cell;
    that number is the count it returns, and the result has [ROWS] rows. *)
Theorem clearRows_spec (grid : matrix) :
  has_rows grid →
  let full := List.filter (λ row, negb (has_empty_cell row)) grid in
  let kept := List.filter has_empty_cell grid in
  clearRows grid = (replicate (length full) empty_row ++ kept,
                    Z.of_nat (length full))
  ∧ Z.of_nat (length (fst (clearRows grid))) = ROWS
  ∧ (∀ row, has_empty_cell row = true ↔ Num 0 ∈ row)
  ∧ Z.of_nat (length empty_row) = COLS
  ∧ Forall (λ cell, cell = Num 0) empty_row.
Proof.
  intros Hrows full kept. unfold clearRows. fold kept.
  rewrite unshift_rows_spec.
  pose proof (filter_split_length has_empty_cell grid) as Hlen.
  fold kept full in Hlen. unfold has_rows in Hrows.
  replace (ROWS - Z.of_nat (length kept)) with (Z.of_nat (length full)) by lia.
  rewrite Nat2Z.id. split; [done|]. split; [|split; [|split]].
  - simpl. rewrite length_app, length_replicate. lia.
  - apply has_empty_cell_iff.
  - reflexivity.
  - apply Forall_replicate. done.
Qed.

Lemma clearRows_spec_witness :
  has_rows bottom_full
  ∧ clearRows bottom_full = (createGrid, 1).
Proof.
  assert (H : has_rows bottom_full) by reflexivity.
  split; [exact H|].
  rewrite (proj1 (clearRows_spec bottom_full H)). reflexivity.
Defined.

(** ** Rotation *)

Lemma mapi_from_length {A B} (f : A → Z → B) k l :
  length (mapi_from f k l) = length l.
Proof. revert k. induction l as [|a l IH]; intros k; simpl; [done|]. by rewrite IH. Qed.

Lemma mapi_from_lookup {A B} (f : A → Z → B) k l (n : nat) :
  mapi_from f k l !! n = (λ a, f a (k + Z.of_nat n)) <$> l !! n.
Proof.
  revert k n. induction l as [|a l IH]; intros k n; simpl; [done|].
  destruct n as [|n]; simpl.
  - by rewrite Z.add_0_r.
  - rewrite IH. by replace (k + 1 + Z.of_nat n) with (k + Z.of_nat (S n)) by lia.
Qed.

Lemma rect_index R C (m : matrix) i :
  rect R C m → 0 ≤ i < Z.of_nat R →
  ∃ row, index m i = Some row ∧ length row = C.
Proof.
  intros [Hlen Hrows] Hi.
  destruct (index m i) as [row|] eqn:E.
  - exists row. split; [done|]. apply index_Some in E as [_ E].
    rewrite Forall_lookup in Hrows. by apply (Hrows _ _ E).
  - apply index_None in E. lia.
Qed.

Lemma read_lookup row i v :
  0 ≤ i → row !! Z.to_nat i = Some v → read row i = v.
Proof. intros Hi H. unfold read, index. case_decide; [|lia]. by rewrite H. Qed.

(** Two matrices of the same dimensions with the same entries are equal. *)
Lemma matrix_ext R C (a b : matrix) :
  rect R C a → rect R C b →
  (∀ i j, 0 ≤ i < Z.of_nat R → 0 ≤ j < Z.of_nat C → entry a i j = entry b i j) →
  a = b.
Proof.
  intros Ha Hb Hent. apply list_eq_same_length with R; [apply Hb | apply Ha |].
  intros i ra rb Hi Hra Hrb.
  assert (length ra = C) as Hla.
  { destruct Ha as [_ Ha]. rewrite Forall_lookup in Ha. by apply (Ha _ _ Hra). }
  assert (length rb = C) as Hlb.
  { destruct Hb as [_ Hb]. rewrite Forall_lookup in Hb. by apply (Hb _ _ Hrb). }
  apply list_eq_same_length with C; [done | done |].
  intros j va vb Hj Hva Hvb.
  specialize (Hent (Z.of_nat i) (Z.of_nat j) ltac:(lia) ltac:(lia)).
  unfold entry, index in Hent. repeat case_decide; try lia.
  rewrite !Nat2Z.id, Hra, Hrb in Hent.
  rewrite (read_lookup ra _ va), (read_lookup rb _ vb) in Hent; try lia; try by rewrite Nat2Z.id.
  done.
Qed.

(** The rotation of a rectangular matrix with a first row. *)
Lemma rotate_spec (R C : nat) (m : matrix) :
  rect R C m → (0 < R)%nat →
  ∃ m', rotate m = Ok m'
        ∧ rect C R m'
        ∧ (∀ i, 0 ≤ i < Z.of_nat C →
                index m' i = Some (reverse ((λ row, read row i) <$> m)))
        ∧ (∀ i j, 0 ≤ i < Z.of_nat C → 0 ≤ j < Z.of_nat R →
                  entry m' i j = entry m (Z.of_nat R - 1 - j) i).
Proof.
  intros Hrect HR.
  destruct (rect_index R C m 0 Hrect ltac:(lia)) as (row0 & Hrow0 & Hlen0).
  unfold rotate. rewrite Hrow0. eexists. split; [reflexivity|].
  set (m' := mapi _ row0).
  assert (Hrows : ∀ i, 0 ≤ i < Z.of_nat C →
            index m' i = Some (reverse ((λ row, read row i) <$> m))).
  { intros i Hi. unfold index. case_decide; [|lia]. unfold m', mapi.
    rewrite mapi_from_lookup.
    destruct (lookup_lt_is_Some_2 row0 (Z.to_nat i) ltac:(lia)) as [v ->]. simpl.
    by replace (0 + Z.of_nat (Z.to_nat i)) with i by lia. }
  split; [|split; [done|]].
  - split.
    + unfold m', mapi. by rewrite mapi_from_length.
    + apply Forall_lookup. intros i row Hi.
      assert (i < C)%nat as HiC.
      { apply lookup_lt_Some in Hi. unfold m', mapi in Hi.
        rewrite mapi_from_length in Hi. lia. }
      specialize (Hrows (Z.of_nat i) ltac:(lia)). unfold index in Hrows.
      case_decide; [|lia]. rewrite Nat2Z.id, Hi in Hrows.
      injection Hrows as ->. rewrite length_reverse, length_fmap. apply Hrect.
  - intros i j Hi Hj. unfold entry at 1. rewrite (Hrows i Hi).
    destruct (rect_index R C m (Z.of_nat R - 1 - j) Hrect ltac:(lia)) as (row & Hrow & Hlen).
    unfold entry. rewrite Hrow.
    apply read_lookup; [lia|].
    rewrite reverse_lookup; rewrite length_fmap, (proj1 Hrect); [|lia].
    rewrite list_lookup_fmap.
    apply index_Some in Hrow as [_ Hrow].
    replace (R - S (Z.to_nat j))%nat with (Z.to_nat (Z.of_nat R - 1 - j)) by lia.
    by rewrite Hrow.
Qed.

(** C6.  For a rectangular shape matrix of [R] rows and [C] columns (a
    shape has a first row, [R >= 1], off which its number of columns is
    read) the rotation returns a matrix of [C] rows and [R] columns whose
    row [i] is column [i] of the input, read from top to bottom and then
    reversed: the entry at row [i], column [j] of the output is the entry
    at row [R-1-j], column [i] of the input. *)
Theorem rotate_clockwise (R C : nat) (m : matrix) :
  rect R C m → (0 < R)%nat →
  ∃ m', rotate m = Ok m'
        ∧ rect C R m'
        ∧ (∀ i, 0 ≤ i < Z.of_nat C →
                index m' i = Some (reverse ((λ row, read row i) <$> m)))
        ∧ (∀ i j, 0 ≤ i < Z.of_nat C → 0 ≤ j < Z.of_nat R →
                  entry m' i j = entry m (Z.of_nat R - 1 - j) i).
Proof. apply rotate_spec. Qed.

Lemma rotate_clockwise_witness :
  rect 2 3 (TETROMINOS K_T) ∧ (0 < 2)%nat
  ∧ ∃ m', rotate (TETROMINOS K_T) = Ok m' ∧ rect 3 2 m'.
Proof.
  assert (Hrect : rect 2 3 (TETROMINOS K_T)).
  { split; [reflexivity | repeat constructor]. }
  assert (Hpos : (0 < 2)%nat) by lia.
  split; [exact Hrect|]. split; [exact Hpos|].
  destruct (rotate_clockwise 2 3 (TETROMINOS K_T) Hrect Hpos) as (m' & Hm' & Hr & _).
  exists m'. split; [exact Hm' | exact Hr].
Defined.

(** On the matrix without rows, which is no shape and which the program
    never rotates, reading [tetromino[0]] gives [undefined] and the
    rotation throws. *)
Lemma rotate_no_rows :
  rect 0 0 [] ∧ ¬ ∃ m', rotate [] = Ok m'.
Proof.
  split; [split; [reflexivity | constructor]|].
  intros [m' H]. discriminate H.
Qed.

(** C7.  For a rectangular shape matrix (a shape has a cell: at least
    one row and one column), four rotations in a row give back the
    matrix, with its dimensions and its cells. *)
Theorem rotate_four_times (R C : nat) (m : matrix) :
  rect R C m → (0 < R)%nat → (0 < C)%nat →
  rotate_times 4 m = Ok m.
Proof.
  intros Hm HR HC.
  destruct (rotate_spec R C m Hm HR) as (m1 & E1 & Hm1 & _ & F1).
  destruct (rotate_spec C R m1 Hm1 HC) as (m2 & E2 & Hm2 & _ & F2).
  destruct (rotate_spec R C m2 Hm2 HR) as (m3 & E3 & Hm3 & _ & F3).
  destruct (rotate_spec C R m3 Hm3 HC) as (m4 & E4 & Hm4 & _ & F4).
  simpl. rewrite E1. simpl. rewrite E2. simpl. rewrite E3. simpl. rewrite E4. simpl.
  f_equal. apply (matrix_ext R C); [done | done |].
  intros i j Hi Hj.
  rewrite F4, F3, F2, F1 by lia. f_equal; lia.
Qed.

Lemma rotate_four_times_witness :
  rect 2 3 (TETROMINOS K_T) ∧ (0 < 2)%nat ∧ (0 < 3)%nat
  ∧ rotate_times 4 (TETROMINOS K_T) = Ok (TETROMINOS K_T).
Proof.
  assert (Hrect : rect 2 3 (TETROMINOS K_T)).
  { split; [reflexivity | repeat constructor]. }
  assert (HR : (0 < 2)%nat) by lia.
  assert (HC : (0 < 3)%nat) by lia.
  split; [exact Hrect|]. split; [exact HR|]. split; [exact HC|].
  exact (rotate_four_times 2 3 (TETROMINOS K_T) Hrect HR HC).
Defined.

(** On the matrix of one row without cells, which is no shape either,
    the rotation has no rows and the second rotation throws. *)
Lemma rotate_four_times_no_columns :
  rect 1 0 [[]] ∧ rotate [[]] = Ok [] ∧ rotate_times 4 [[]] ≠ Ok [[]].
Proof.
  split; [split; [reflexivity | repeat constructor]|].
  split; [reflexivity|]. discriminate.
Qed.

(** ** Merging *)

(** Reading the grid after [newGrid[i][j] = v], when row [i] exists: a
    write at a negative column leaves all the cells as they were. *)
Lemma store_spec (g : matrix) i j v :
  is_Some (index g i) →
  ∃ g', store g i j v = Ok g'
        ∧ length g' = length g
        ∧ ∀ i' j', entry g' i' j'
                   = if decide (i' = i ∧ j' = j) then
                       (if decide (0 ≤ j) then v else entry g i' j')
                     else entry g i' j'.
Proof.
  intros [row Hrow]. unfold store. rewrite Hrow. eexists. split; [reflexivity|].
  split; [by rewrite length_insert|].
  pose proof (proj1 (index_is_Some g i) (mk_is_Some _ _ Hrow)) as Hi.
  intros i' j'. unfold entry.
  destruct (decide (i' = i)) as [->|Hne].
  - rewrite Hrow. unfold index at 1. case_decide; [|lia].
    rewrite list_lookup_insert_eq by lia.
    destruct (decide (0 ≤ j)).
    + rewrite read_write by done. repeat case_decide; try done; exfalso; intuition congruence.
    + rewrite write_neg by lia. by case_decide.
  - case_decide; [exfalso; intuition congruence|]. unfold index. case_decide; [|done].
    rewrite list_lookup_insert_ne by lia. done.
Qed.

Lemma store_missing_row (g : matrix) i j v :
  index g i = None → store g i j v = TypeError.
Proof. intros H. unfold store. by rewrite H. Qed.

Lemma index_is_Some_length {A} (g g' : list A) i :
  length g' = length g → is_Some (index g i) → is_Some (index g' i).
Proof. intros Hlen. rewrite !index_is_Some. lia. Qed.

(** One row of the piece, from column [c] on, written into the grid. *)
Lemma merge_cells_spec pos r c row (g : matrix) :
  (∀ k, truthy (read row k) = true → y pos + r < ROWS → x pos + c + k < COLS →
        is_Some (index g (y pos + r))) →
  ∃ g', merge_cells pos r c row g = Ok g'
        ∧ length g' = length g
        ∧ ∀ i j, entry g' i j
                 = if decide (i = y pos + r ∧ i < ROWS ∧ 0 ≤ j < COLS
                              ∧ truthy (read row (j - (x pos + c))) = true)
                   then read row (j - (x pos + c))
                   else entry g i j.
Proof.
  revert c g. induction row as [|cell rest IH]; intros c g Hrow; simpl.
  - exists g. split; [done|]. split; [done|]. intros i j.
    case_decide as H; [|done]. destruct H as (_ & _ & _ & H).
    apply read_truthy_range in H. simpl in H. lia.
  - assert (∃ g1, (if truthy cell && bool_decide (y pos + r < ROWS)
                      && bool_decide (x pos + c < COLS)
                   then store g (y pos + r) (x pos + c) cell else Ok g) = Ok g1
              ∧ length g1 = length g
              ∧ ∀ i j, entry g1 i j
                  = if decide (i = y pos + r ∧ i < ROWS ∧ 0 ≤ j < COLS
                               ∧ j = x pos + c ∧ truthy cell = true)
                    then cell else entry g i j) as (g1 & -> & Hlen1 & Hent1).
    { destruct (truthy cell) eqn:Hcell; simpl.
      2:{ exists g. split; [done|]. split; [done|]. intros i j.
          case_decide as H; [|done]. destruct H as (_ & _ & _ & _ & ?). done. }
      case_bool_decide as Hy; simpl.
      2:{ exists g. split; [done|]. split; [done|]. intros i j.
          case_decide as H; [|done]. lia. }
      case_bool_decide as Hx; simpl.
      2:{ exists g. split; [done|]. split; [done|]. intros i j.
          case_decide as H; [|done]. lia. }
      destruct (store_spec g (y pos + r) (x pos + c) cell) as (g1 & -> & Hlen1 & Hent1).
      { apply (Hrow 0); [by rewrite read_cons; case_decide | done | lia]. }
      exists g1. split; [done|]. split; [done|]. intros i j. rewrite Hent1.
      repeat case_decide; try done; try lia.
      all: try (exfalso; intuition lia).
}
    simpl.
    destruct (IH (c + 1) g1) as (g' & -> & Hlen' & Hent').
    { intros k Hk Hy Hx. apply (index_is_Some_length g); [done|].
      apply (Hrow (k + 1)); [|done|lia].
      rewrite read_cons. pose proof (read_truthy_range _ _ Hk).
      destruct (decide (k + 1 = 0)); [lia|]. by replace (k + 1 - 1) with k by lia. }
    exists g'. split; [done|]. split; [congruence|]. intros i j.
    rewrite Hent', Hent1. rewrite read_cons.
    replace (j - (x pos + c) - 1) with (j - (x pos + (c + 1))) by lia.
    destruct (decide (j - (x pos + c) = 0)) as [H0|H0]; decide_goal; try done.
    all: try (exfalso; intuition lia).
    all: exfalso; truthy_ranges read_truthy_range; try lia.
    match goal with n : ¬ _ |- _ => apply n; repeat split; (done || lia) end.
Qed.

(** The rows of the piece, from row [r] on, written into the grid. *)
Lemma merge_rows_spec pos r (t g : matrix) :
  (∀ i k, filled t i k → y pos + r + i < ROWS → x pos + k < COLS →
          is_Some (index g (y pos + r + i))) →
  ∃ g', merge_rows pos r t g = Ok g'
        ∧ length g' = length g
        ∧ ∀ i j, entry g' i j
                 = if decide (i < ROWS ∧ 0 ≤ j < COLS
                              ∧ truthy (entry t (i - y pos - r) (j - x pos)) = true)
                   then entry t (i - y pos - r) (j - x pos)
                   else entry g i j.
Proof.
  revert r g. induction t as [|row rest IH]; intros r g Hrows; simpl.
  - exists g. split; [done|]. split; [done|]. intros i j.
    rewrite entry_nil. destruct (decide _) as [(_ & _ & ?)|]; done.
  - destruct (merge_cells_spec pos r 0 row g) as (g1 & -> & Hlen1 & Hent1).
    { intros k Hk Hy Hx.
      replace (y pos + r) with (y pos + r + 0) by lia.
      apply (Hrows 0 k); [|lia|lia].
      unfold filled. rewrite entry_cons. by destruct (decide (0 = 0)). }
    simpl.
    destruct (IH (r + 1) g1) as (g' & -> & Hlen' & Hent').
    { intros i k Hf Hy Hx. apply (index_is_Some_length g); [done|].
      pose proof (filled_range _ _ _ Hf) as [Hi _].
      replace (y pos + (r + 1) + i) with (y pos + r + (i + 1)) by lia.
      apply (Hrows (i + 1) k); [|lia|lia].
      unfold filled. rewrite entry_cons. destruct (decide (i + 1 = 0)); [lia|].
      by replace (i + 1 - 1) with i by lia. }
    exists g'. split; [done|]. split; [congruence|]. intros i j.
    rewrite Hent', Hent1, entry_cons.
    replace (i - y pos - r - 1) with (i - y pos - (r + 1)) by lia.
    replace (j - (x pos + 0)) with (j - x pos) by lia.
    destruct (decide (i - y pos - r = 0)) as [H0|H0]; decide_goal; try done.
    all: exfalso; truthy_ranges filled_range; try lia.
    all: match goal with n : ¬ _ |- _ => apply n; repeat split; (done || lia) end.
Qed.

(** What [merge] returns when every row it writes to exists: cell by cell,
    the filled cell of the piece that lands there, if there is one below
    row [ROWS] and left of column [COLS], and the cell of the grid
    otherwise. *)
Lemma merge_spec (grid t : matrix) pos :
  (∀ r c, filled t r c → y pos + r < ROWS → x pos + c < COLS →
          is_Some (index grid (y pos + r))) →
  ∃ g', merge grid t pos = Ok g'
        ∧ length g' = length grid
        ∧ ∀ i j, entry g' i j
                 = if decide (i < ROWS ∧ 0 ≤ j < COLS
                              ∧ truthy (entry t (i - y pos) (j - x pos)) = true)
                   then entry t (i - y pos) (j - x pos)
                   else entry grid i j.
Proof.
  intros Hrows. unfold merge. rewrite list_fmap_id.
  destruct (merge_rows_spec pos 0 t grid) as (g' & Hg' & Hlen & Hent).
  { intros i k Hf Hy Hx. replace (y pos + 0 + i) with (y pos + i) in * by lia.
    by apply (Hrows i k). }
  exists g'. split; [done|]. split; [done|]. intros i j. rewrite Hent.
  by replace (i - y pos - 0) with (i - y pos) by lia.
Qed.

Lemma store_length (g g' : matrix) i j v :
  store g i j v = Ok g' → length g' = length g.
Proof.
  unfold store. destruct (index g i); [|done].
  intros [= <-]. by rewrite length_insert.
Qed.

Lemma index_None_length {A} (g g' : list A) i :
  length g' = length g → index g i = None → index g' i = None.
Proof. intros Hlen. rewrite !index_None. lia. Qed.

(** [merge] throws as soon as a filled cell passes the guard of the write
    and its row [newGrid[position.y + r]] is [undefined]. *)
Lemma merge_cells_missing_row pos r c row (g : matrix) k :
  truthy (read row k) = true → y pos + r < ROWS → x pos + c + k < COLS →
  index g (y pos + r) = None →
  merge_cells pos r c row g = TypeError.
Proof.
  revert c g k. induction row as [|cell rest IH]; intros c g k Hk Hy Hx Hnone.
  - apply read_truthy_range in Hk. simpl in Hk. lia.
  - simpl. rewrite read_cons in Hk. destruct (decide (k = 0)) as [->|Hne].
    + rewrite Hk. simpl. rewrite !bool_decide_eq_true_2 by lia. simpl.
      by rewrite store_missing_row.
    + destruct (truthy cell && bool_decide (y pos + r < ROWS)
                && bool_decide (x pos + c < COLS)); simpl.
      * destruct (store g (y pos + r) (x pos + c) cell) as [g1|] eqn:E; [|done].
        simpl. apply (IH _ _ (k - 1)); [done | done | lia |].
        apply (index_None_length g); [by eapply store_length | done].
      * apply (IH _ _ (k - 1)); [done | done | lia | done].
Qed.

Lemma merge_cells_length pos r c row (g g' : matrix) :
  merge_cells pos r c row g = Ok g' → length g' = length g.
Proof.
  revert c g. induction row as [|cell rest IH]; intros c g; simpl.
  - by intros [= <-].
  - destruct (truthy cell && bool_decide (y pos + r < ROWS)
              && bool_decide (x pos + c < COLS)); simpl.
    + destruct (store g (y pos + r) (x pos + c) cell) as [g1|] eqn:E; [|done].
      simpl. intros H. apply IH in H. apply store_length in E. congruence.
    + apply IH.
Qed.

Lemma merge_rows_missing_row pos r (t g : matrix) i k :
  filled t i k → y pos + r + i < ROWS → x pos + k < COLS →
  index g (y pos + r + i) = None →
  merge_rows pos r t g = TypeError.
Proof.
  revert r g i. induction t as [|row rest IH]; intros r g i Hf Hy Hx Hnone.
  - unfold filled in Hf. by rewrite entry_nil in Hf.
  - simpl. unfold filled in Hf. rewrite entry_cons in Hf.
    destruct (decide (i = 0)) as [->|Hne].
    + rewrite (merge_cells_missing_row pos r 0 row g k); [done | done | lia | lia |].
      by replace (y pos + r) with (y pos + r + 0) by lia.
    + destruct (merge_cells pos r 0 row g) as [g1|] eqn:E; simpl; [|done].
      apply (IH _ _ (i - 1)); [done | lia | lia |].
      apply (index_None_length g); [by eapply merge_cells_length|].
      by replace (y pos + (r + 1) + (i - 1)) with (y pos + r + i) by lia.
Qed.

Lemma merge_missing_row (grid t : matrix) pos r c :
  filled t r c → y pos + r < ROWS → x pos + c < COLS →
  index grid (y pos + r) = None →
  merge grid t pos = TypeError.
Proof.
  intros Hf Hy Hx Hnone. unfold merge. rewrite list_fmap_id.
  apply (merge_rows_missing_row pos 0 t _ r c); [done | lia | lia |].
  by replace (y pos + 0 + r) with (y pos + r) by lia.
Qed.

(** In particular [merge] throws when a filled cell of the piece lands
    above row 0 and left of column [COLS]. *)
Lemma merge_negative_row_throws (grid t : matrix) pos r c :
  filled t r c → y pos + r < 0 → x pos + c < COLS →
  merge grid t pos = TypeError.
Proof.
  intros Hf Hy Hx. assert (ROWS = 20) by done.
  apply (merge_missing_row grid t pos r c); [done | lia | done |].
  apply index_None. lia.
Qed.

(** When [merge] returns, every row it wrote to exists in the grid. *)
Lemma merge_ok_rows (grid t merged : matrix) pos r c :
  merge grid t pos = Ok merged →
  filled t r c → y pos + r < ROWS → x pos + c < COLS →
  is_Some (index grid (y pos + r)).
Proof.
  intros Hm Hf Hy Hx. destruct (index grid (y pos + r)) eqn:E; [eauto|].
  rewrite (merge_missing_row grid t pos r c) in Hm; done.
Qed.




(** C10.  When the piece does not collide at the position and all its
    filled cells land on rows and columns [>= 0], [merge] never writes
    over an occupied cell: in the grid it returns, every occupied cell of
    the input keeps its value, and the cells that pass from unoccupied to
    occupied are exactly the cells on which a filled cell of the piece
    lands.  On a grid of [ROWS] rows it does return a grid. *)
Theorem merge_keeps_occupied (grid tetromino : matrix) (pos : Position) :
  isColliding grid tetromino pos = Ok false →
  (∀ r c, filled tetromino r c → 0 ≤ y pos + r ∧ 0 ≤ x pos + c) →
  (has_rows grid → ∃ merged, merge grid tetromino pos = Ok merged)
  ∧ ∀ merged,
      merge grid tetromino pos = Ok merged →
      (∀ i j, occupied grid i j → entry merged i j = entry grid i j)
      ∧ (∀ i j, ¬ occupied grid i j ∧ occupied merged i j ↔
                ∃ r c, filled tetromino r c ∧ i = y pos + r ∧ j = x pos + c).
Proof.
  intros Hfree Hpos.
  assert (Hclear : ∀ r c, filled tetromino r c →
            y pos + r < ROWS ∧ x pos + c < COLS
            ∧ ¬ occupied grid (y pos + r) (x pos + c)).
  { intros r c Hf.
    destruct (isColliding_spec grid tetromino pos) as (b & Hb & Hiff).
    assert (b = false) as -> by congruence.
    assert (¬ obstructed grid (y pos + r) (x pos + c)) as Hno.
    { intros Ho. assert (false = true); [|done]. apply Hiff. eauto. }
    destruct (Hpos r c Hf). unfold obstructed in Hno.
    split; [lia|]. split; [lia|]. tauto. }
  split.
  { intros Hrows.
    destruct (merge_spec grid tetromino pos) as (merged & Hm & _).
    - intros r c Hf _ _. apply index_is_Some. unfold has_rows in Hrows.
      destruct (Hpos r c Hf). destruct (Hclear r c Hf). lia.
    - eauto. }
  intros merged Hmerged.
  destruct (merge_spec grid tetromino pos) as (merged' & Hm & _ & Hent).
  { intros r c Hf. by apply (merge_ok_rows grid tetromino merged pos r c). }
  assert (merged' = merged) as -> by congruence.
  split.
  - intros i j Hocc. rewrite Hent.
    destruct (decide _) as [(_ & _ & Hf)|]; [|done].
    destruct (Hclear _ _ Hf) as (_ & _ & Hno). exfalso. apply Hno.
    by replace (y pos + (i - y pos)) with i by lia;
       replace (x pos + (j - x pos)) with j by lia.
  - intros i j. unfold occupied at 2. rewrite Hent. split.
    + intros [Hno Hocc]. destruct (decide _) as [(_ & _ & Hf)|]; [|done].
      exists (i - y pos), (j - x pos). split; [done | lia].
    + intros (r & c & Hf & -> & ->).
      destruct (Hclear r c Hf) as (Hy & Hx & Hno). destruct (Hpos r c Hf).
      split; [done|].
      replace (y pos + r - y pos) with r by lia.
      replace (x pos + c - x pos) with c by lia.
      destruct (decide _) as [|Hn]; [done|]. exfalso. apply Hn.
      split; [lia|]. split; [lia|done].
Qed.

Lemma merge_keeps_occupied_witness :
  isColliding bottom_full (TETROMINOS K_T) (mkPosition 4 17) = Ok false
  ∧ has_rows bottom_full
  ∧ ∃ merged, merge bottom_full (TETROMINOS K_T) (mkPosition 4 17) = Ok merged
              ∧ ∀ i j, occupied bottom_full i j →
                       entry merged i j = entry bottom_full i j.
Proof.
  assert (Hrows : has_rows bottom_full) by reflexivity.
  assert (Hfree : isColliding bottom_full (TETROMINOS K_T) (mkPosition 4 17)
                  = Ok false) by reflexivity.
  assert (Hpos : ∀ r c, filled (TETROMINOS K_T) r c →
                        0 ≤ y (mkPosition 4 17) + r ∧ 0 ≤ x (mkPosition 4 17) + c).
  { intros r c Hf. apply filled_range in Hf. simpl. lia. }
  split; [exact Hfree|]. split; [exact Hrows|].
  destruct (merge_keeps_occupied bottom_full (TETROMINOS K_T) (mkPosition 4 17)
              Hfree Hpos) as [Hreturns Hkeeps].
  destruct (Hreturns Hrows) as [merged Hm].
  exists merged. split; [exact Hm|]. exact (proj1 (Hkeeps merged Hm)).
Defined.

(** ** The draw *)

(** The index drawn by [randomTetromino] lies within [tetrominos]. *)
Lemma random_index (random : Q) :
  (0 <= random)%Q → (random < 1)%Q →
  0 ≤ Qfloor (random * inject_Z (Z.of_nat (length tetrominos))) < 7.
Proof.
  intros H0 H1. simpl length. change (inject_Z (Z.of_nat 7)) with (7 # 1)%Q.
  split.
  - change 0 with (Qfloor 0). apply Qfloor_resp_le.
    apply Qmult_le_0_compat; [done|]. done.
  - rewrite Zlt_Qlt. eapply Qle_lt_trans; [apply Qfloor_le|].
    change (inject_Z 7) with (1 * (7 # 1))%Q.
    apply Qmult_lt_compat_r; done.
Qed.

Lemma randomTetromino_standard (random : Q) :
  (0 <= random)%Q → (random < 1)%Q →
  ∃ piece, randomTetromino random = Some piece ∧ piece ∈ standard_shapes.
Proof.
  intros H0 H1. unfold randomTetromino.
  pose proof (random_index random H0 H1) as Hn.
  set (n := Qfloor _) in *.
  destruct (index tetrominos n) as [key|] eqn:E.
  - exists (TETROMINOS key). split; [done|].
    apply list_elem_of_fmap. exists key. split; [done|].
    apply index_Some in E as [_ E]. by apply list_elem_of_lookup_2 in E.
  - apply index_None in E. change (Z.of_nat (length tetrominos)) with 7 in E. lia.
Qed.

(** ** The commands *)

(** C1.  In a running game, when the piece is below the spawn row
    ([y > 0]) and collides one row further down, [dropTetromino] merges
    the piece into the grid at its position, takes the grid that
    [clearRows] returns for the merged grid, draws one of the seven shapes
    of the table and puts it at the spawn position
    [x = floor(COLS / 2) - 1 = 4], [y = 0].  The new piece is not tested
    against the new grid: the game-over flag stays down whatever the new
    grid holds at the spawn position.  On a grid of [ROWS] rows the merge
    returns a grid. *)
Theorem dropTetromino_locks (random : Q) (s : State) :
  running s →
  0 < y (position s) →
  isColliding (grid s) (tetromino s)
    (mkPosition (x (position s)) (y (position s) + 1)) = Ok true →
  (0 <= random)%Q → (random < 1)%Q →
  ∃ piece,
    randomTetromino random = Some piece
    ∧ piece ∈ standard_shapes
    ∧ dropTetromino random s
      = (mergedGrid ← merge (grid s) (tetromino s) (position s);
         Ok (mkState (fst (clearRows mergedGrid)) (mkPosition (COLS / 2 - 1) 0)
               piece false false))
    ∧ mkPosition (COLS / 2 - 1) 0 = mkPosition 4 0
    ∧ (has_rows (grid s) →
       ∃ mergedGrid, merge (grid s) (tetromino s) (position s) = Ok mergedGrid).
Proof.
  intros [Hp Hg] Hy Hcol H0 H1.
  destruct (randomTetromino_standard random H0 H1) as (piece & Hpiece & Hin).
  exists piece. split; [done|]. split; [done|]. split; [|split; [done|]].
  - unfold dropTetromino. rewrite Hp, Hg, Hcol. simpl.
    destruct (decide (y (position s) = 0)); [lia|].
    destruct (merge (grid s) (tetromino s) (position s)) as [mergedGrid|];
      simpl; [|done].
    destruct (clearRows mergedGrid) as [newGrid n']. rewrite Hpiece. done.
  - intros Hrows.
    destruct (merge_spec (grid s) (tetromino s) (position s))
      as (mergedGrid & Hm & _).
    + intros r c Hf Hr _. apply index_is_Some. apply filled_range in Hf.
      unfold has_rows in Hrows. lia.
    + eauto.
Qed.

Lemma dropTetromino_locks_witness :
  running resting
  ∧ 0 < y (position resting)
  ∧ isColliding (grid resting) (tetromino resting) (mkPosition 0 2) = Ok true
  ∧ ∃ piece,
      piece ∈ standard_shapes
      ∧ dropTetromino 0 resting
        = (mergedGrid ← merge (grid resting) (tetromino resting) (position resting);
           Ok (mkState (fst (clearRows mergedGrid)) (mkPosition (COLS / 2 - 1) 0)
                 piece false false)).
Proof.
  assert (Hrun : running resting) by (split; reflexivity).
  assert (Hy : 0 < y (position resting)) by reflexivity.
  assert (Hcol : isColliding (grid resting) (tetromino resting)
                   (mkPosition (x (position resting)) (y (position resting) + 1))
                 = Ok true) by reflexivity.
  assert (H0 : (0 <= 0)%Q) by discriminate.
  assert (H1 : (0 < 1)%Q) by reflexivity.
  split; [exact Hrun|]. split; [exact Hy|]. split; [exact Hcol|].
  destruct (dropTetromino_locks 0 resting Hrun Hy Hcol H0 H1)
    as (piece & _ & Hin & Hdrop & _).
  exists piece. split; [exact Hin | exact Hdrop].
Defined.

(** The spawn position of the state reached from [resting] is already
    occupied, and the game is nevertheless running. *)
Example dropTetromino_spawn_unchecked :
  ∃ s', dropTetromino 0 resting = Ok s'
        ∧ isColliding (grid s') (tetromino s') (position s') = Ok true
        ∧ running s'.
Proof. eexists. split; [reflexivity|]. split; [reflexivity|]. split; reflexivity. Qed.

(** C5.  In a running game, when the piece is at the spawn row ([y = 0])
    and collides one row further down, [dropTetromino] sets the game-over
    flag and changes nothing else: the grid, the piece and the position
    are those of before. *)
Theorem dropTetromino_game_over (random : Q) (s : State) :
  running s →
  y (position s) = 0 →
  isColliding (grid s) (tetromino s)
    (mkPosition (x (position s)) (y (position s) + 1)) = Ok true →
  dropTetromino random s
  = Ok (mkState (grid s) (position s) (tetromino s) true (isPaused s)).
Proof.
  intros [Hp Hg] Hy Hcol. unfold dropTetromino. rewrite Hp, Hg, Hcol. simpl.
  destruct (decide (y (position s) = 0)); [|lia].
  unfold set_gameOver. by rewrite Hp.
Qed.

Lemma dropTetromino_game_over_witness :
  running stuck
  ∧ y (position stuck) = 0
  ∧ dropTetromino 0 stuck
    = Ok (mkState (grid stuck) (position stuck) (tetromino stuck) true false).
Proof.
  assert (Hrun : running stuck) by (split; reflexivity).
  assert (Hy : y (position stuck) = 0) by reflexivity.
  assert (Hcol : isColliding (grid stuck) (tetromino stuck)
                   (mkPosition (x (position stuck)) (y (position stuck) + 1))
                 = Ok true) by reflexivity.
  split; [exact Hrun|]. split; [exact Hy|].
  exact (dropTetromino_game_over 0 stuck Hrun Hy Hcol).
Defined.

(** C8.  When the game is paused or over, moving left, moving right,
    rotating and dropping all return the state they were given: the grid,
    the piece and the position are unchanged.  The same holds when the
    command comes through the key handler or through the timer. *)
Theorem commands_ignored_when_not_running (s : State) :
  isPaused s = true ∨ gameOver s = true →
  moveTetromino (-1) s = Ok s
  ∧ moveTetromino 1 s = Ok s
  ∧ rotateTetromino s = Ok s
  ∧ (∀ random, dropTetromino random s = Ok s)
  ∧ (∀ random key, handleKeyPress random key s = Ok s)
  ∧ (∀ random, interval random s = Ok s).
Proof.
  intros Hstop.
  assert (isPaused s || gameOver s = true) as Hguard.
  { destruct Hstop as [-> | ->]; [done | apply orb_true_r]. }
  assert (negb (isPaused s) && negb (gameOver s) = false) as Htimer.
  { destruct Hstop as [-> | ->]; [done | apply andb_false_r]. }
  unfold moveTetromino, rotateTetromino, dropTetromino, handleKeyPress, interval.
  rewrite Hguard, Htimer. repeat split; done.
Qed.

Lemma commands_ignored_when_not_running_witness :
  (isPaused paused = true ∨ gameOver paused = true)
  ∧ moveTetromino (-1) paused = Ok paused
  ∧ moveTetromino 1 paused = Ok paused
  ∧ rotateTetromino paused = Ok paused
  ∧ (∀ random, dropTetromino random paused = Ok paused).
Proof.
  assert (Hstop : isPaused paused = true ∨ gameOver paused = true).
  { left. reflexivity. }
  split; [exact Hstop|].
  destruct (commands_ignored_when_not_running paused Hstop)
    as (Hl & Hr & Hrot & Hdrop & _).
  split; [exact Hl|]. split; [exact Hr|]. split; [exact Hrot | exact Hdrop].
Defined.

(** * Further properties of the code *)

(** ** [merge]: errors and dimensions *)

Lemma write_length row i v :
  i < Z.of_nat (length row) → length (write row i v) = length row.
Proof.
  intros Hi. unfold write. destruct (decide (i < 0)); [done|].
  destruct (decide (Z.to_nat i < length row)%nat); [|lia].
  by rewrite length_insert.
Qed.

Lemma store_well_formed (g g' : matrix) i j v :
  well_formed g → j < COLS → store g i j v = Ok g' → well_formed g'.
Proof.
  intros [Hlen Hrows] Hj. unfold store.
  destruct (index g i) as [row|] eqn:E; [|done]. intros [= <-].
  apply index_Some in E as [Hi E].
  split; [by rewrite length_insert|].
  apply Forall_insert; [done|].
  rewrite Forall_lookup in Hrows. pose proof (Hrows _ _ E) as Hrow.
  rewrite write_length; [done|]. assert (COLS = 10) by done. lia.
Qed.

Lemma merge_cells_well_formed pos r c row (g g' : matrix) :
  well_formed g → merge_cells pos r c row g = Ok g' → well_formed g'.
Proof.
  revert c g. induction row as [|cell rest IH]; intros c g Hwf; simpl.
  - by intros [= <-].
  - destruct (truthy cell); simpl; [|by apply IH].
    case_bool_decide; simpl; [|by apply IH].
    case_bool_decide as Hx; simpl; [|by apply IH].
    destruct (store g (y pos + r) (x pos + c) cell) as [g1|] eqn:E; [|done].
    simpl. apply IH. by eapply store_well_formed.
Qed.

Lemma merge_rows_well_formed pos r (t g g' : matrix) :
  well_formed g → merge_rows pos r t g = Ok g' → well_formed g'.
Proof.
  revert r g. induction t as [|row rest IH]; intros r g Hwf; simpl.
  - by intros [= <-].
  - destruct (merge_cells pos r 0 row g) as [g1|] eqn:E; [|done].
    simpl. apply IH. by eapply merge_cells_well_formed.
Qed.

(** The grid that [merge] returns has the dimensions of its argument. *)
Lemma merge_keeps_dimensions (grid tetromino merged : matrix) (pos : Position) :
  well_formed grid →
  merge grid tetromino pos = Ok merged →
  well_formed merged.
Proof.
  intros Hwf. unfold merge. rewrite list_fmap_id.
  by apply merge_rows_well_formed.
Qed.

(** X1.  On a grid of [ROWS] rows of [COLS] cells the grid that [merge]
    returns has the same dimensions: the filled cells that land below the
    last row or right of the last column are left out, and none extends a
    row. *)
Theorem merge_well_formed (grid tetromino merged : matrix) (pos : Position) :
  well_formed grid →
  merge grid tetromino pos = Ok merged →
  well_formed merged.
Proof. apply merge_keeps_dimensions. Qed.

Lemma merge_well_formed_witness :
  well_formed createGrid
  ∧ merge createGrid (TETROMINOS K_I) (mkPosition 8 19)
    = Ok (<[19%nat := cells [0; 0; 0; 0; 0; 0; 0; 0; 1; 1]]> createGrid)
  ∧ well_formed (<[19%nat := cells [0; 0; 0; 0; 0; 0; 0; 0; 1; 1]]> createGrid).
Proof.
  assert (Hwf : well_formed createGrid).
  { split; [reflexivity | apply Forall_replicate; reflexivity]. }
  assert (Hm : merge createGrid (TETROMINOS K_I) (mkPosition 8 19)
               = Ok (<[19%nat := cells [0; 0; 0; 0; 0; 0; 0; 0; 1; 1]]> createGrid))
    by reflexivity.
  split; [exact Hwf|]. split; [exact Hm|].
  exact (merge_well_formed createGrid (TETROMINOS K_I) _ (mkPosition 8 19) Hwf Hm).
Defined.

(** X2.  On a grid of [ROWS] rows, [merge] throws when a filled cell of
    the piece lands above row 0 and left of column [COLS], and returns a
    grid when no filled cell does. *)
Theorem merge_throws_iff_above (grid tetromino : matrix) (pos : Position) :
  has_rows grid →
  ((∃ r c, filled tetromino r c ∧ y pos + r < 0 ∧ x pos + c < COLS) →
   merge grid tetromino pos = TypeError)
  ∧ ((∀ r c, filled tetromino r c → x pos + c < COLS → 0 ≤ y pos + r) →
     ∃ merged, merge grid tetromino pos = Ok merged).
Proof.
  intros Hrows. split.
  - intros (r & c & Hf & Hy & Hx). by apply (merge_negative_row_throws _ _ _ r c).
  - intros Hbelow.
    destruct (merge_spec grid tetromino pos) as (merged & Hm & _); [|eauto].
    intros r c Hf Hy Hx. apply index_is_Some. unfold has_rows in Hrows.
    specialize (Hbelow r c Hf Hx). lia.
Qed.

Lemma merge_throws_iff_above_witness :
  has_rows createGrid
  ∧ merge createGrid (TETROMINOS K_O) (mkPosition 0 (-1)) = TypeError.
Proof.
  assert (Hrows : has_rows createGrid) by reflexivity.
  split; [exact Hrows|].
  apply (proj1 (merge_throws_iff_above createGrid (TETROMINOS K_O)
                  (mkPosition 0 (-1)) Hrows)).
  exists 0, 0. split; [reflexivity|]. split; reflexivity.
Defined.

(** X3.  A filled cell that lands left of column 0 is no error: when all
    the filled cells of the piece land there, on rows of the grid, [merge]
    returns the grid as it was. *)
Theorem merge_left_of_grid (grid tetromino : matrix) (pos : Position) :
  well_formed grid →
  (∀ r c, filled tetromino r c → 0 ≤ y pos + r ∧ x pos + c < 0) →
  merge grid tetromino pos = Ok grid.
Proof.
  intros Hwf Hleft.
  destruct (merge_spec grid tetromino pos) as (merged & Hm & _ & Hent).
  { intros r c Hf Hy _. apply index_is_Some. destruct Hwf as [Hlen _].
    destruct (Hleft r c Hf). assert (ROWS = 20) by done. lia. }
  rewrite Hm. f_equal.
  apply (matrix_ext (Z.to_nat ROWS) (Z.to_nat COLS)); [|done|].
  - by apply (merge_keeps_dimensions grid tetromino merged pos).
  - intros i j Hi Hj. rewrite Hent.
    destruct (decide _) as [(_ & _ & Hf)|]; [|done].
    destruct (Hleft _ _ Hf). lia.
Qed.

Lemma merge_left_of_grid_witness :
  well_formed createGrid
  ∧ merge createGrid (TETROMINOS K_O) (mkPosition (-2) 3) = Ok createGrid.
Proof.
  assert (Hwf : well_formed createGrid).
  { split; [reflexivity | apply Forall_replicate; reflexivity]. }
  split; [exact Hwf|].
  apply (merge_left_of_grid createGrid (TETROMINOS K_O) (mkPosition (-2) 3) Hwf).
  intros r c Hf. unfold filled, entry in Hf.
  destruct (index (TETROMINOS K_O) r) as [row|] eqn:Er; [|discriminate].
  assert (0 ≤ r) by (apply index_Some in Er; lia).
  assert (c < 2).
  { assert (length row = 2%nat) as Hlen.
    { apply index_Some in Er as [_ Er].
      destruct (Z.to_nat r) as [|[|[|]]]; simpl in Er; try discriminate;
        injection Er as <-; reflexivity. }
    apply read_truthy_range in Hf. lia. }
  simpl. lia.
Defined.

(** X4.  Merging the same piece at the same position a second time
    changes nothing: on a grid of [ROWS] rows of [COLS] cells, [merge]
    applied to what it returned returns it again. *)
Theorem merge_idempotent (grid tetromino merged : matrix) (pos : Position) :
  well_formed grid →
  merge grid tetromino pos = Ok merged →
  merge merged tetromino pos = Ok merged.
Proof.
  intros Hwf Hm.
  pose proof (merge_keeps_dimensions _ _ _ _ Hwf Hm) as Hwf'.
  destruct (merge_spec grid tetromino pos) as (m1 & Hm1 & Hlen1 & Hent1).
  { intros r c Hf. by apply (merge_ok_rows grid tetromino merged pos r c). }
  assert (m1 = merged) as -> by congruence.
  destruct (merge_spec merged tetromino pos) as (m2 & Hm2 & _ & Hent2).
  { intros r c Hf Hy Hx. apply (index_is_Some_length grid); [done|].
    by apply (merge_ok_rows grid tetromino merged pos r c). }
  rewrite Hm2. f_equal.
  apply (matrix_ext (Z.to_nat ROWS) (Z.to_nat COLS)); [|done|].
  - by apply (merge_keeps_dimensions merged tetromino m2 pos).
  - intros i j Hi Hj. rewrite Hent2, Hent1. by destruct (decide _).
Qed.

Lemma merge_idempotent_witness :
  well_formed createGrid
  ∧ ∃ merged, merge createGrid (TETROMINOS K_T) (mkPosition 4 0) = Ok merged
              ∧ merge merged (TETROMINOS K_T) (mkPosition 4 0) = Ok merged.
Proof.
  assert (Hwf : well_formed createGrid).
  { split; [reflexivity | apply Forall_replicate; reflexivity]. }
  split; [exact Hwf|]. eexists.
  assert (Hm : merge createGrid (TETROMINOS K_T) (mkPosition 4 0) = Ok _)
    by reflexivity.
  split; [exact Hm|].
  exact (merge_idempotent createGrid (TETROMINOS K_T) _ (mkPosition 4 0) Hwf Hm).
Defined.

(** ** [clearRows]: any number of rows *)

Lemma has_empty_cell_empty_row : has_empty_cell empty_row = true.
Proof. reflexivity. Qed.

Lemma filter_all {A} (f : A → bool) (l : list A) :
  Forall (λ a, f a = true) l → List.filter f l = l.
Proof.
  induction 1 as [|a l Ha _ IH]; simpl; [done|]. by rewrite Ha, IH.
Qed.

Lemma filter_Forall {A} (f : A → bool) (l : list A) :
  Forall (λ a, f a = true) (List.filter f l).
Proof.
  induction l as [|a l IH]; simpl; [constructor|].
  destruct (f a) eqn:E; [by constructor | done].
Qed.

(** [clearRows] on a grid of any number of rows. *)
Lemma clearRows_closed_form (grid : matrix) :
  let kept := List.filter has_empty_cell grid in
  clearRows grid
  = (replicate (Z.to_nat (ROWS - Z.of_nat (length kept))) empty_row ++ kept,
     ROWS - Z.of_nat (length kept))
  ∧ Z.of_nat (length (fst (clearRows grid)))
    = Z.max ROWS (Z.of_nat (length kept)).
Proof.
  intros kept. unfold clearRows. fold kept. rewrite unshift_rows_spec.
  split; [done|]. simpl. rewrite length_app, length_replicate. lia.
Qed.

(** X5.  Whatever the number of rows of its argument, [clearRows] returns
    a grid of [ROWS] rows, or of as many rows as contain an empty cell if
    these are more than [ROWS]; the count it returns is [ROWS] minus the
    number of rows that contain an empty cell, which is negative in the
    second case. *)
Theorem clearRows_any_grid (grid : matrix) :
  let kept := List.filter has_empty_cell grid in
  clearRows grid
  = (replicate (Z.to_nat (ROWS - Z.of_nat (length kept))) empty_row ++ kept,
     ROWS - Z.of_nat (length kept))
  ∧ Z.of_nat (length (fst (clearRows grid)))
    = Z.max ROWS (Z.of_nat (length kept)).
Proof. apply clearRows_closed_form. Qed.

(** Every row that [clearRows] returns contains an empty cell. *)
Lemma clearRows_rows_have_empty_cell (grid : matrix) :
  Forall (λ row, has_empty_cell row = true) (fst (clearRows grid)).
Proof.
  unfold clearRows. rewrite unshift_rows_spec. simpl.
  apply Forall_app. split.
  - apply Forall_replicate. exact has_empty_cell_empty_row.
  - apply filter_Forall.
Qed.

(** X6.  No row without an empty cell is left in the grid that
    [clearRows] returns. *)
Theorem clearRows_leaves_no_full_row (grid : matrix) :
  Forall (λ row, has_empty_cell row = true) (fst (clearRows grid)).
Proof. apply clearRows_rows_have_empty_cell. Qed.

(** X7.  On a grid of [ROWS] rows that all contain an empty cell,
    [clearRows] returns the grid itself and the count 0; so clearing a
    second time the grid that [clearRows] returned for a grid of [ROWS]
    rows changes nothing. *)
Theorem clearRows_idempotent (grid : matrix) :
  has_rows grid →
  (Forall (λ row, has_empty_cell row = true) grid → clearRows grid = (grid, 0))
  ∧ clearRows (fst (clearRows grid)) = (fst (clearRows grid), 0).
Proof.
  intros Hrows.
  assert (Hfix : ∀ g, has_rows g → Forall (λ row, has_empty_cell row = true) g →
                      clearRows g = (g, 0)).
  { intros g Hg Hall. unfold clearRows. rewrite unshift_rows_spec.
    rewrite filter_all by done. unfold has_rows in Hg. rewrite Hg.
    by replace (ROWS - ROWS) with 0 by lia. }
  split; [by apply Hfix|].
  apply Hfix; [|apply clearRows_rows_have_empty_cell].
  unfold has_rows. destruct (clearRows_closed_form grid) as [_ ->].
  pose proof (filter_split_length has_empty_cell grid). unfold has_rows in Hrows. lia.
Qed.

Lemma clearRows_idempotent_witness :
  has_rows bottom_full
  ∧ clearRows (fst (clearRows bottom_full)) = (fst (clearRows bottom_full), 0).
Proof.
  assert (Hrows : has_rows bottom_full) by reflexivity.
  split; [exact Hrows|].
  exact (proj2 (clearRows_idempotent bottom_full Hrows)).
Defined.

(** The grid that [clearRows] returns has the dimensions of its argument. *)
Lemma clearRows_keeps_dimensions (grid : matrix) :
  well_formed grid → well_formed (fst (clearRows grid)).
Proof.
  intros [Hlen Hall]. destruct (clearRows_closed_form grid) as [Heq Hl].
  split.
  - pose proof (filter_split_length has_empty_cell grid).
    assert (ROWS = 20) by done. lia.
  - rewrite Heq. simpl. apply Forall_app. split.
    + apply Forall_replicate. unfold empty_row. by rewrite length_replicate.
    + rewrite Forall_forall in Hall. apply Forall_forall. intros row Hin.
      apply Hall. apply list_elem_of_In. apply list_elem_of_In in Hin.
      apply filter_In in Hin. tauto.
Qed.

(** X8.  [clearRows] keeps the dimensions of a grid of [ROWS] rows of
    [COLS] cells. *)
Theorem clearRows_well_formed (grid : matrix) :
  well_formed grid → well_formed (fst (clearRows grid)).
Proof. apply clearRows_keeps_dimensions. Qed.

Lemma clearRows_well_formed_witness :
  well_formed bottom_full ∧ well_formed (fst (clearRows bottom_full)).
Proof.
  assert (Hwf : well_formed bottom_full).
  { split; [reflexivity | repeat constructor]. }
  split; [exact Hwf|]. exact (clearRows_well_formed bottom_full Hwf).
Defined.

(** ** [isColliding]: more or fewer occupied cells *)



(** X10.  A piece without a filled cell, such as the shape ['0'] of the
    table, collides nowhere, not even below the floor: in a running game
    [dropTetromino] never locks it, on any grid, and moves it one row
    down at every call as long as its row is a safe integer. *)
Theorem unfilled_piece_never_lands (random : Q) (s : State) :
  running s →
  (∀ r c, ¬ filled (tetromino s) r c) →
  (∀ grid pos, isColliding grid (tetromino s) pos = Ok false)
  ∧ (safe_integer (y (position s)) →
     dropTetromino random s
     = Ok (mkState (grid s) (mkPosition (x (position s)) (y (position s) + 1))
             (tetromino s) false false)).
Proof.
  intros [Hp Hg] Hnone.
  assert (Hfree : ∀ grid pos, isColliding grid (tetromino s) pos = Ok false).
  { intros g pos. destruct (isColliding_spec g (tetromino s) pos) as (b & -> & Hiff).
    f_equal. destruct b; [|done]. exfalso.
    destruct (proj1 Hiff eq_refl) as (r & c & Hf & _). by apply (Hnone r c). }
  split; [done|]. intros _.
  unfold dropTetromino. rewrite Hp, Hg, Hfree. simpl.
  unfold set_position. by rewrite Hp, Hg.
Qed.

Lemma unfilled_piece_never_lands_witness :
  running (mkState createGrid (mkPosition 4 25) (TETROMINOS K_0) false false)
  ∧ dropTetromino 0 (mkState createGrid (mkPosition 4 25) (TETROMINOS K_0) false false)
    = Ok (mkState createGrid (mkPosition 4 26) (TETROMINOS K_0) false false).
Proof.
  assert (Hrun : running (mkState createGrid (mkPosition 4 25) (TETROMINOS K_0)
                            false false)) by (split; reflexivity).
  assert (Hnone : ∀ r c, ¬ filled (tetromino (mkState createGrid (mkPosition 4 25)
                                      (TETROMINOS K_0) false false)) r c).
  { intros r c Hf. unfold filled, entry in Hf. simpl in Hf.
    rewrite index_cons in Hf. destruct (decide (r = 0)).
    - rewrite read_cons in Hf. destruct (decide (c = 0)); [discriminate|].
      unfold read, index in Hf. destruct (decide (0 ≤ c - 1)); discriminate.
    - unfold index in Hf. destruct (decide (0 ≤ r - 1)); discriminate. }
  assert (Hsafe : safe_integer
                    (y (position (mkState createGrid (mkPosition 4 25)
                                    (TETROMINOS K_0) false false)))).
  { split; reflexivity. }
  split; [exact Hrun|].
  exact (proj2 (unfilled_piece_never_lands 0 _ Hrun Hnone) Hsafe).
Defined.

(** ** Rotation: half turns and ragged matrices *)

(** X12.  Two rotations of a rectangular matrix with at least one row and
    one column turn it upside down: the rows come in the reverse order,
    each of them reversed. *)
Theorem rotate_twice (R C : nat) (m : matrix) :
  rect R C m → (0 < R)%nat → (0 < C)%nat →
  rotate_times 2 m = Ok (reverse (reverse <$> m)).
Proof.
  intros Hm HR HC.
  destruct (rotate_spec R C m Hm HR) as (m1 & E1 & Hm1 & _ & F1).
  destruct (rotate_spec C R m1 Hm1 HC) as (m2 & E2 & Hm2 & _ & F2).
  simpl. rewrite E1. simpl. rewrite E2. simpl. f_equal.
  assert (rect R C (reverse (reverse <$> m))) as Hrev.
  { destruct Hm as [Hlen Hrows]. split.
    - by rewrite length_reverse, length_fmap.
    - apply Forall_reverse, Forall_fmap. eapply Forall_impl; [exact Hrows|].
      intros row Hrow. simpl. by rewrite length_reverse. }
  apply (matrix_ext R C); [done | done |].
  intros i j Hi Hj. rewrite F2, F1 by lia.
  destruct (rect_index R C m (Z.of_nat R - 1 - i) Hm ltac:(lia))
    as (row & Hrow & Hlen).
  replace (Z.of_nat R - 1 - (Z.of_nat R - 1 - i)) with i by lia.
  unfold entry at 1. rewrite Hrow.
  unfold entry, index. destruct (decide (0 ≤ i)); [|lia].
  rewrite reverse_lookup by (rewrite length_fmap, (proj1 Hm); lia).
  rewrite list_lookup_fmap, length_fmap, (proj1 Hm).
  apply index_Some in Hrow as [_ Hrow].
  replace (R - S (Z.to_nat i))%nat with (Z.to_nat (Z.of_nat R - 1 - i)) by lia.
  rewrite Hrow. simpl.
  unfold read, index. destruct (decide (0 ≤ j)); [|lia].
  destruct (decide (0 ≤ Z.of_nat C - 1 - j)); [|lia].
  rewrite reverse_lookup by lia. rewrite Hlen.
  by replace (C - S (Z.to_nat j))%nat with (Z.to_nat (Z.of_nat C - 1 - j)) by lia.
Qed.

Lemma rotate_twice_witness :
  rect 2 3 (TETROMINOS K_T) ∧ (0 < 2)%nat ∧ (0 < 3)%nat
  ∧ rotate_times 2 (TETROMINOS K_T) = Ok [cells [1; 1; 1]; cells [0; 1; 0]].
Proof.
  assert (Hrect : rect 2 3 (TETROMINOS K_T)).
  { split; [reflexivity | repeat constructor]. }
  assert (HR : (0 < 2)%nat) by lia.
  assert (HC : (0 < 3)%nat) by lia.
  split; [exact Hrect|]. split; [exact HR|]. split; [exact HC|].
  exact (rotate_twice 2 3 (TETROMINOS K_T) Hrect HR HC).
Defined.

(** X13.  The rotation takes its number of rows from the first row of its
    argument alone: for every matrix with a first row, rectangular or
    not, it returns as many rows as the first row has cells, each as long
    as the argument has rows; a cell that a shorter row lacks comes out as
    [undefined]. *)
Theorem rotate_ragged (row0 : list value) (rest : matrix) :
  ∃ m', rotate (row0 :: rest) = Ok m'
        ∧ rect (length row0) (S (length rest)) m'
        ∧ ∀ i j, 0 ≤ i < Z.of_nat (length row0) → 0 ≤ j ≤ Z.of_nat (length rest) →
                 entry m' i j = entry (row0 :: rest) (Z.of_nat (length rest) - j) i.
Proof.
  unfold rotate. rewrite index_cons. destruct (decide (0 = 0)); [|done].
  eexists. split; [reflexivity|].
  set (m := row0 :: rest). set (m' := mapi _ row0).
  assert (Hrows : ∀ i, 0 ≤ i < Z.of_nat (length row0) →
            index m' i = Some (reverse ((λ row, read row i) <$> m))).
  { intros i Hi. unfold index. destruct (decide (0 ≤ i)); [|lia]. unfold m', mapi.
    rewrite mapi_from_lookup.
    destruct (lookup_lt_is_Some_2 row0 (Z.to_nat i) ltac:(lia)) as [v ->]. simpl.
    by replace (0 + Z.of_nat (Z.to_nat i)) with i by lia. }
  split; [split|].
  - unfold m', mapi. by rewrite mapi_from_length.
  - apply Forall_lookup. intros i row Hi.
    assert (i < length row0)%nat as HiC.
    { apply lookup_lt_Some in Hi. unfold m', mapi in Hi.
      by rewrite mapi_from_length in Hi. }
    specialize (Hrows (Z.of_nat i) ltac:(lia)). unfold index in Hrows.
    destruct (decide (0 ≤ Z.of_nat i)); [|lia]. rewrite Nat2Z.id, Hi in Hrows.
    injection Hrows as ->. rewrite length_reverse. simpl.
    by rewrite length_fmap.
  - intros i j Hi Hj. unfold entry at 1. rewrite (Hrows i Hi).
    assert (length m = S (length rest)) as Hlen by done.
    destruct (lookup_lt_is_Some_2 m (Z.to_nat (Z.of_nat (length rest) - j))
                ltac:(lia)) as [row Hrow].
    unfold entry, index. destruct (decide (0 ≤ Z.of_nat (length rest) - j)); [|lia].
    rewrite Hrow. apply read_lookup; [lia|].
    rewrite reverse_lookup; rewrite length_fmap, Hlen; [|lia].
    rewrite list_lookup_fmap.
    replace (S (length rest) - S (Z.to_nat j))%nat
      with (Z.to_nat (Z.of_nat (length rest) - j)) by lia.
    by rewrite Hrow.
Qed.

(** ** The commands: what they keep *)

Lemma isColliding_returns grid t pos :
  isColliding grid t pos = Ok true ∨ isColliding grid t pos = Ok false.
Proof.
  destruct (isColliding_spec grid t pos) as ([] & Hb & _); auto.
Qed.

(** X14.  Moving and rotating never touch the grid or the two flags: a
    move changes at most the column of the position, which for a move by
    one column from a safe integer is the old column or the old column
    plus [dir], and a rotation changes at most the piece, into its
    rotation. *)
Theorem move_and_rotate_frame (dir : Z) (s s' : State) :
  (moveTetromino dir s = Ok s' →
   grid s' = grid s ∧ tetromino s' = tetromino s
   ∧ gameOver s' = gameOver s ∧ isPaused s' = isPaused s
   ∧ y (position s') = y (position s)
   ∧ (dir = -1 ∨ dir = 1 → safe_integer (x (position s)) →
      x (position s') = x (position s) ∨ x (position s') = x (position s) + dir))
  ∧ (rotateTetromino s = Ok s' →
     grid s' = grid s ∧ position s' = position s
     ∧ gameOver s' = gameOver s ∧ isPaused s' = isPaused s
     ∧ (tetromino s' = tetromino s ∨ rotate (tetromino s) = Ok (tetromino s'))).
Proof.
  split.
  - unfold moveTetromino. destruct (isPaused s || gameOver s).
    { intros [= <-]. tauto. }
    destruct (isColliding_returns (grid s) (tetromino s)
                (mkPosition (x (position s) + dir) (y (position s)))) as [-> | ->];
      simpl; intros [= <-]; simpl; tauto.
  - unfold rotateTetromino. destruct (isPaused s || gameOver s).
    { intros [= <-]. tauto. }
    destruct (rotate (tetromino s)) as [rotated|]; simpl; [|done].
    destruct (isColliding_returns (grid s) rotated (position s)) as [-> | ->];
      simpl; intros [= <-]; simpl; tauto.
Qed.

Lemma move_and_rotate_frame_witness :
  moveTetromino 1 resting
  = Ok (mkState crowded (mkPosition 1 1) [[Num 1]] false false)
  ∧ grid (mkState crowded (mkPosition 1 1) [[Num 1]] false false) = grid resting.
Proof.
  assert (Hm : moveTetromino 1 resting
               = Ok (mkState crowded (mkPosition 1 1) [[Num 1]] false false))
    by reflexivity.
  split; [exact Hm|].
  exact (proj1 (proj1 (move_and_rotate_frame 1 resting _) Hm)).
Defined.

(** X15.  A piece that does not collide where it is still does not after
    a move, a rotation or a drop, accepted or not; the one exception is
    the drop that locks the piece, which puts the next piece at the spawn
    position without a test. *)
Theorem placed_preserved (dir : Z) (random : Q) (s s' : State) :
  placed s →
  (moveTetromino dir s = Ok s' → placed s')
  ∧ (rotateTetromino s = Ok s' → placed s')
  ∧ (dropTetromino random s = Ok s' → placed s' ∨ position s' = spawn).
Proof.
  unfold placed. intros Hs. split; [|split].
  - unfold moveTetromino. destruct (isPaused s || gameOver s).
    { by intros [= <-]. }
    destruct (isColliding _ _ (mkPosition _ _)) as [[]|] eqn:E; simpl;
      [| |done]; by intros [= <-].
  - unfold rotateTetromino. destruct (isPaused s || gameOver s).
    { by intros [= <-]. }
    destruct (rotate (tetromino s)) as [rotated|]; simpl; [|done].
    destruct (isColliding (grid s) rotated (position s)) as [[]|] eqn:E; simpl;
      [| |done]; by intros [= <-].
  - unfold dropTetromino. destruct (isPaused s || gameOver s).
    { intros [= <-]. by left. }
    destruct (isColliding _ _ (mkPosition _ _)) as [[]|] eqn:E; simpl; [| |done].
    + destruct (decide (y (position s) = 0)).
      { intros [= <-]. by left. }
      destruct (merge _ _ _) as [mergedGrid|]; simpl; [|done].
      destruct (clearRows mergedGrid) as [newGrid n'].
      destruct (randomTetromino random); [|done]. intros [= <-]. by right.
    + intros [= <-]. by left.
Qed.

Lemma placed_preserved_witness :
  placed resting ∧ placed (mkState crowded (mkPosition 1 1) [[Num 1]] false false).
Proof.
  assert (Hp : placed resting) by reflexivity.
  assert (Hm : moveTetromino 1 resting
               = Ok (mkState crowded (mkPosition 1 1) [[Num 1]] false false))
    by reflexivity.
  split; [exact Hp|].
  exact (proj1 (placed_preserved 1 0 resting _ Hp) Hm).
Defined.

(** X16.  A move by one column that changed the position of a piece
    that did not collide, from a column that is a safe integer, is undone
    by the move in the opposite direction. *)
Theorem move_back (dir : Z) (s s' : State) :
  dir = -1 ∨ dir = 1 →
  safe_integer (x (position s)) →
  placed s →
  moveTetromino dir s = Ok s' →
  position s' ≠ position s →
  moveTetromino (- dir) s' = Ok s.
Proof.
  unfold placed. intros _ _ Hs Hm Hne. unfold moveTetromino in Hm.
  destruct (isPaused s || gameOver s) eqn:Hguard.
  { injection Hm as <-. done. }
  destruct (isColliding _ _ (mkPosition _ _)) as [[]|] eqn:E; simpl in Hm;
    [| |done]; injection Hm as <-; [done|].
  unfold moveTetromino. simpl. rewrite Hguard.
  replace (x (position s) + dir + - dir) with (x (position s)) by lia.
  destruct s as [g [px py] t go ip]. simpl in *. rewrite Hs. done.
Qed.

Lemma move_back_witness :
  placed resting
  ∧ moveTetromino (- 1) (mkState crowded (mkPosition 1 1) [[Num 1]] false false)
    = Ok resting.
Proof.
  assert (Hp : placed resting) by reflexivity.
  assert (Hm : moveTetromino 1 resting
               = Ok (mkState crowded (mkPosition 1 1) [[Num 1]] false false))
    by reflexivity.
  assert (Hne : position (mkState crowded (mkPosition 1 1) [[Num 1]] false false)
                ≠ position resting) by discriminate.
  assert (Hdir : 1 = -1 ∨ 1 = 1) by (right; reflexivity).
  assert (Hsafe : safe_integer (x (position resting))) by (split; reflexivity).
  split; [exact Hp|].
  exact (move_back 1 resting _ Hdir Hsafe Hp Hm Hne).
Defined.

(** ** The component never throws *)

Lemma standard_shapes_proper piece :
  piece ∈ standard_shapes → proper_piece piece.
Proof.
  unfold standard_shapes. intros Hin.
  apply list_elem_of_fmap in Hin as (key & -> & Hkey).
  repeat (apply elem_of_cons in Hkey as [->|Hkey];
          [first [ exists 1%nat, 4%nat; split; [lia|]; split; [lia|];
                   split; [reflexivity | by repeat constructor]
                 | exists 2%nat, 2%nat; split; [lia|]; split; [lia|];
                   split; [reflexivity | by repeat constructor]
                 | exists 2%nat, 3%nat; split; [lia|]; split; [lia|];
                   split; [reflexivity | by repeat constructor] ]|]).
  by apply elem_of_nil in Hkey.
Qed.

Lemma rotate_proper t :
  proper_piece t → ∃ t', rotate t = Ok t' ∧ proper_piece t'.
Proof.
  intros (R & C & HR & HC & Hrect).
  destruct (rotate_spec R C t Hrect HR) as (t' & Ht' & Hrect' & _).
  exists t'. split; [done|]. by exists C, R.
Qed.

Lemma merge_returns grid t pos :
  well_formed grid → 0 ≤ y pos →
  ∃ merged, merge grid t pos = Ok merged ∧ well_formed merged.
Proof.
  intros Hwf Hy.
  destruct (merge_spec grid t pos) as (merged & Hm & _).
  { intros r c Hf Hr _. apply index_is_Some. apply filled_range in Hf.
    destruct Hwf as [Hlen _]. assert (ROWS = 20) by done. lia. }
  exists merged. split; [done|]. by apply (merge_keeps_dimensions grid t merged pos).
Qed.

Lemma moveTetromino_sound dir s :
  sound s → ∃ s', moveTetromino dir s = Ok s' ∧ sound s'.
Proof.
  intros Hs. unfold moveTetromino. destruct (isPaused s || gameOver s); [eauto|].
  destruct (isColliding_returns (grid s) (tetromino s)
              (mkPosition (x (position s) + dir) (y (position s)))) as [-> | ->];
    simpl; eauto.
Qed.

Lemma rotateTetromino_sound s :
  sound s → ∃ s', rotateTetromino s = Ok s' ∧ sound s'.
Proof.
  intros Hs. unfold rotateTetromino. destruct (isPaused s || gameOver s); [eauto|].
  destruct Hs as (Hwf & Hpiece & Hy).
  destruct (rotate_proper _ Hpiece) as (rotated & -> & Hrot). simpl.
  destruct (isColliding_returns (grid s) rotated (position s)) as [-> | ->];
    simpl; eexists; (split; [reflexivity|]); done.
Qed.

Lemma dropTetromino_sound random s :
  unit_interval random → sound s →
  ∃ s', dropTetromino random s = Ok s' ∧ sound s'.
Proof.
  intros [H0 H1] Hs. unfold dropTetromino.
  destruct (isPaused s || gameOver s); [eauto|].
  destruct Hs as (Hwf & Hpiece & Hy).
  destruct (isColliding_returns (grid s) (tetromino s)
              (mkPosition (x (position s)) (y (position s) + 1))) as [-> | ->];
    simpl.
  - destruct (decide (y (position s) = 0)).
    { eexists. split; [reflexivity|]. done. }
    destruct (merge_returns (grid s) (tetromino s) (position s) Hwf Hy)
      as (mergedGrid & -> & Hwf'). simpl.
    pose proof (clearRows_keeps_dimensions mergedGrid Hwf') as Hclear.
    destruct (randomTetromino_standard random H0 H1) as (piece & -> & Hin).
    eexists. split; [reflexivity|]. split; [exact Hclear|].
    split; [by apply standard_shapes_proper | simpl; lia].
  - eexists. split; [reflexivity|]. split; [done|]. split; [done|]. simpl. lia.
Qed.

Lemma handleRestart_sound random s :
  unit_interval random → ∃ s', handleRestart random s = Ok s' ∧ sound s'.
Proof.
  intros [H0 H1]. unfold handleRestart.
  destruct (randomTetromino_standard random H0 H1) as (piece & -> & Hin).
  eexists. split; [reflexivity|]. split; [|split].
  - split; [reflexivity | apply Forall_replicate; reflexivity].
  - by apply standard_shapes_proper.
  - done.
Qed.

Lemma handle_sound random e s :
  unit_interval random → sound s →
  ∃ s', handle random e s = Ok s' ∧ sound s'.
Proof.
  intros Hr Hs. destruct e as [key| | |]; simpl.
  - unfold handleKeyPress. destruct (isPaused s || gameOver s); [eauto|].
    destruct key; [by apply moveTetromino_sound | by apply moveTetromino_sound
                  | by apply dropTetromino_sound | by apply rotateTetromino_sound
                  | eauto].
  - unfold interval. destruct (negb (isPaused s) && negb (gameOver s)); [|eauto].
    by apply dropTetromino_sound.
  - eexists. split; [reflexivity|]. done.
  - by apply handleRestart_sound.
Qed.

Lemma render_returns s :
  sound s → ∃ colours, render s = Ok colours.
Proof.
  intros (Hwf & _ & Hy). unfold render.
  destruct (merge_returns (grid s) (tetromino s) (position s) Hwf Hy)
    as (merged & -> & _). simpl. eauto.
Qed.

(** X17.  From a state whose grid has [ROWS] rows of [COLS] cells, whose
    piece is rectangular with at least one cell and whose position is not
    above row 0, no run of events throws, in a handler or in the
    rendering, and the state it ends in is again such a state. *)
Theorem run_never_throws (events : list (Q * Event)) (s : State) :
  sound s →
  Forall (λ re, unit_interval (fst re)) events →
  ∃ s', run events s = Ok s' ∧ sound s'
        ∧ ∃ colours, render s' = Ok colours.
Proof.
  intros Hs Hev. revert s Hs.
  induction Hev as [|[random e] events Hr _ IH]; intros s Hs; simpl.
  - exists s. split; [done|]. split; [done|]. by apply render_returns.
  - destruct (handle_sound random e s Hr Hs) as (s1 & -> & Hs1). simpl.
    destruct (render_returns s1 Hs1) as (colours & ->). simpl.
    by apply IH.
Qed.

Lemma run_never_throws_witness :
  sound resting
  ∧ ∃ s', run [(0%Q, Timer); (0%Q, KeyDown ArrowUp); (0%Q, KeyDown ArrowLeft)]
            resting = Ok s' ∧ sound s'.
Proof.
  assert (Hs : sound resting).
  { split; [split; [reflexivity | repeat constructor]|].
    split; [|simpl; lia].
    exists 1%nat, 1%nat. split; [lia|]. split; [lia|].
    split; [reflexivity | repeat constructor]. }
  assert (Hev : Forall (λ re : Q * Event, unit_interval (fst re))
                  [(0%Q, Timer); (0%Q, KeyDown ArrowUp); (0%Q, KeyDown ArrowLeft)]).
  { repeat constructor; discriminate. }
  split; [exact Hs|].
  destruct (run_never_throws _ resting Hs Hev) as (s' & Hrun & Hs' & _).
  exists s'. split; [exact Hrun | exact Hs'].
Defined.

(** X18.  The first render and every restart, from whatever state, start
    a running and sound game on the empty grid, with one of the seven
    shapes at the spawn position, where it does not collide. *)
Theorem restart_fresh (random : Q) (s : State) :
  unit_interval random →
  ∃ s', handleRestart random s = Ok s'
        ∧ initialState random = Ok s'
        ∧ grid s' = createGrid
        ∧ position s' = spawn
        ∧ tetromino s' ∈ standard_shapes
        ∧ running s' ∧ sound s' ∧ placed s'.
Proof.
  intros Hr. destruct (handleRestart_sound random s Hr) as (s' & Hs' & Hsound).
  exists s'. unfold handleRestart, initialState in *.
  destruct Hr as [H0 H1].
  destruct (randomTetromino_standard random H0 H1) as (piece & Hp & Hin).
  rewrite Hp in *. injection Hs' as <-. simpl.
  repeat (split; [done|]). unfold placed. simpl.
  unfold standard_shapes in Hin.
  apply list_elem_of_fmap in Hin as (key & -> & Hkey).
  repeat (apply elem_of_cons in Hkey as [->|Hkey]; [reflexivity|]).
  by apply elem_of_nil in Hkey.
Qed.

Lemma restart_fresh_witness :
  unit_interval (3 # 7)
  ∧ ∃ s', handleRestart (3 # 7) stuck = Ok s'
          ∧ grid s' = createGrid ∧ position s' = spawn.
Proof.
  assert (Hr : unit_interval (3 # 7)) by (split; [discriminate | reflexivity]).
  split; [exact Hr|].
  destruct (restart_fresh (3 # 7) stuck Hr) as (s' & Hs' & _ & Hg & Hp & _).
  exists s'. split; [exact Hs'|]. split; [exact Hg | exact Hp].
Defined.

(** ** Pause and game over across runs of events *)

Lemma render_same_board s s' :
  grid s' = grid s → tetromino s' = tetromino s → position s' = position s →
  render s' = render s.
Proof. intros Hg Ht Hp. unfold render. by rewrite Hg, Ht, Hp. Qed.

Lemma stopped_ignores s random :
  isPaused s || gameOver s = true →
  (∀ key, handleKeyPress random key s = Ok s) ∧ interval random s = Ok s.
Proof.
  intros Hstop. unfold handleKeyPress, interval. rewrite Hstop.
  split; [done|].
  destruct (isPaused s), (gameOver s); done.
Qed.

Lemma run_app events1 events2 s :
  run (events1 ++ events2) s = (s' ← run events1 s; run events2 s').
Proof.
  revert s. induction events1 as [|[random e] events1 IH]; intros s; simpl; [done|].
  destruct (handle random e s) as [s1|]; simpl; [|done].
  destruct (render s1); simpl; [|done]. apply IH.
Qed.

Lemma run_stopped events s colours :
  isPaused s || gameOver s = true →
  render s = Ok colours →
  Forall (λ re : Q * Event, snd re = Timer ∨ ∃ key, snd re = KeyDown key) events →
  run events s = Ok s.
Proof.
  intros Hstop Hrender Hev.
  induction Hev as [|[random e] events He _ IH]; simpl; [done|].
  destruct (stopped_ignores s random Hstop) as [Hkey Htimer].
  simpl in He. destruct He as [-> | [key ->]]; simpl.
  - rewrite Htimer. simpl. rewrite Hrender. simpl. exact IH.
  - rewrite Hkey. simpl. rewrite Hrender. simpl. exact IH.
Qed.

(** X19.  Pausing freezes the game: between a press of the pause button
    in a game that is not paused and the next press, any number of keys
    and timer ticks leave no trace, and the second press gives back the
    very state in which the first one came. *)
Theorem pause_round_trip (events : list (Q * Event)) (r0 r1 : Q) (s : State)
    (colours : list string) :
  isPaused s = false →
  render s = Ok colours →
  Forall (λ re : Q * Event, snd re = Timer ∨ ∃ key, snd re = KeyDown key) events →
  run ((r0, PauseButton) :: events ++ [(r1, PauseButton)]) s = Ok s.
Proof.
  intros Hp Hrender Hev.
  assert (render (handlePauseResume s) = Ok colours) as Hrender'.
  { rewrite <- Hrender. by apply render_same_board. }
  change (run ((r0, PauseButton) :: events ++ [(r1, PauseButton)]) s)
    with (s' ← Ok (handlePauseResume s); _ ← render s';
          run (events ++ [(r1, PauseButton)]) s').
  simpl. rewrite Hrender'. simpl. rewrite run_app.
  rewrite (run_stopped events (handlePauseResume s) colours); [|simpl|done|done].
  - simpl.
    assert (handlePauseResume (handlePauseResume s) = s) as ->.
    { destruct s as [g p t go ip]. simpl in Hp. subst ip. reflexivity. }
    rewrite Hrender. done.
  - by rewrite Hp.
Qed.

Lemma pause_round_trip_witness :
  isPaused resting = false
  ∧ run [(0%Q, PauseButton); (0%Q, Timer); (0%Q, KeyDown ArrowRight);
         (0%Q, PauseButton)] resting = Ok resting.
Proof.
  assert (Hp : isPaused resting = false) by reflexivity.
  assert (Hr : render resting = Ok _) by reflexivity.
  assert (Hev : Forall (λ re : Q * Event, snd re = Timer ∨ ∃ key, snd re = KeyDown key)
                  [(0%Q, Timer); (0%Q, KeyDown ArrowRight)]).
  { constructor; [by left|]. constructor; [right; by eexists|]. constructor. }
  split; [exact Hp|].
  exact (pause_round_trip _ 0%Q 0%Q resting _ Hp Hr Hev).
Defined.

(** X20.  Game over is final until the restart button: once the flag is
    up, no key, timer tick or press of the pause button lowers it or
    changes the grid, the piece or the position. *)
Theorem game_over_is_final (events : list (Q * Event)) (s : State)
    (colours : list string) :
  gameOver s = true →
  render s = Ok colours →
  Forall (λ re : Q * Event, snd re ≠ RestartButton) events →
  ∃ s', run events s = Ok s'
        ∧ gameOver s' = true
        ∧ grid s' = grid s ∧ tetromino s' = tetromino s
        ∧ position s' = position s.
Proof.
  intros Hover Hrender Hev. revert s Hover Hrender.
  induction Hev as [|[random e] events He _ IH]; intros s Hover Hrender; simpl.
  - exists s. done.
  - assert (isPaused s || gameOver s = true) as Hstop.
    { rewrite Hover. apply orb_true_r. }
    destruct (stopped_ignores s random Hstop) as [Hkey Htimer].
    simpl in He. destruct e as [key| | |]; simpl; [| | |done].
    + rewrite Hkey. simpl. rewrite Hrender. simpl. by apply IH.
    + rewrite Htimer. simpl. rewrite Hrender. simpl. by apply IH.
    + assert (render (handlePauseResume s) = Ok colours) as Hrender'.
      { rewrite <- Hrender. by apply render_same_board. }
      rewrite Hrender'. simpl.
      destruct (IH (handlePauseResume s) Hover Hrender') as (s' & -> & ? & ? & ? & ?).
      exists s'. done.
Qed.

Lemma game_over_is_final_witness :
  gameOver (mkState crowded (mkPosition 0 0) (TETROMINOS K_O) true false) = true
  ∧ ∃ s', run [(0%Q, PauseButton); (0%Q, Timer); (0%Q, KeyDown ArrowUp)]
            (mkState crowded (mkPosition 0 0) (TETROMINOS K_O) true false) = Ok s'
          ∧ gameOver s' = true ∧ grid s' = crowded.
Proof.
  assert (Hover : gameOver (mkState crowded (mkPosition 0 0) (TETROMINOS K_O)
                              true false) = true) by reflexivity.
  assert (Hr : render (mkState crowded (mkPosition 0 0) (TETROMINOS K_O) true false)
               = Ok _) by reflexivity.
  assert (Hev : Forall (λ re : Q * Event, snd re ≠ RestartButton)
                  [(0%Q, PauseButton); (0%Q, Timer); (0%Q, KeyDown ArrowUp)]).
  { repeat constructor; discriminate. }
  split; [exact Hover|].
  destruct (game_over_is_final _ _ _ Hover Hr Hev) as (s' & Hrun & Hgo & Hg & _).
  exists s'. split; [exact Hrun|]. split; [exact Hgo | exact Hg].
Defined.

(** ** The rendering *)

Lemma concat_uniform_length (m : matrix) (C : nat) :
  Forall (λ row, length row = C) m → length (concat m) = (length m * C)%nat.
Proof.
  induction 1 as [|row m Hrow _ IH]; simpl; [done|].
  rewrite length_app, IH, Hrow. done.
Qed.

Lemma concat_uniform_lookup (m : matrix) (C i j : nat) :
  Forall (λ row, length row = C) m → (j < C)%nat →
  concat m !! (i * C + j)%nat = m !! i ≫= (λ row, row !! j).
Proof.
  intros Hm Hj. revert i. induction Hm as [|row m Hrow _ IH]; intros i; simpl.
  - by rewrite !lookup_nil.
  - destruct i as [|i]; simpl.
    + by rewrite lookup_app_l by lia.
    + rewrite lookup_app_r by lia.
      replace (C + i * C + j - length row)%nat with (i * C + j)%nat by lia.
      apply IH.
Qed.

Lemma truthy_not_zero v : truthy v = true → is_zero v = false.
Proof. destruct v as [[| |]|]; done. Qed.

(** X21.  When the grid has [ROWS] rows of [COLS] cells and the position
    is not above row 0, the board is rendered as [ROWS * COLS] cells, row
    after row; the cell of row [i], column [j] is black where a filled
    cell of the piece lands, and otherwise white exactly when the grid
    holds 0 there. *)
Theorem render_board (s : State) :
  well_formed (grid s) →
  0 ≤ y (position s) →
  ∃ colours,
    render s = Ok colours
    ∧ Z.of_nat (length colours) = ROWS * COLS
    ∧ ∀ i j, 0 ≤ i < ROWS → 0 ≤ j < COLS →
        colours !! Z.to_nat (i * COLS + j)
        = Some (if truthy (entry (tetromino s) (i - y (position s))
                             (j - x (position s)))
                then "#000"
                else if is_zero (entry (grid s) i j) then "#fff" else "#000").
Proof.
  intros Hwf Hy.
  destruct (merge_returns _ (tetromino s) _ Hwf Hy) as (merged & Hm & Hwf').
  destruct (merge_spec (grid s) (tetromino s) (position s))
    as (merged' & Hm' & _ & Hent).
  { intros r c Hf. by apply (merge_ok_rows (grid s) (tetromino s) merged (position s) r c). }
  assert (merged' = merged) as -> by congruence. clear Hm'.
  unfold render. rewrite Hm. simpl. eexists. split; [reflexivity|].
  destruct Hwf' as [Hlen Hrows]. assert (ROWS = 20) as HR by done.
  assert (COLS = 10) as HC by done.
  split.
  - rewrite length_fmap, (concat_uniform_length _ _ Hrows), Hlen. lia.
  - intros i j Hi Hj. rewrite list_lookup_fmap.
    replace (Z.to_nat (i * COLS + j))
      with (Z.to_nat i * Z.to_nat COLS + Z.to_nat j)%nat by lia.
    rewrite (concat_uniform_lookup _ _ _ _ Hrows) by lia.
    specialize (Hent i j). unfold entry at 1 in Hent. unfold index in Hent.
    destruct (decide (0 ≤ i)); [|lia].
    destruct (lookup_lt_is_Some_2 merged (Z.to_nat i) ltac:(lia)) as [row Hrow].
    rewrite Hrow in *. simpl.
    rewrite Forall_lookup in Hrows. pose proof (Hrows _ _ Hrow) as Hlrow.
    destruct (lookup_lt_is_Some_2 row (Z.to_nat j) ltac:(lia)) as [v Hv].
    rewrite Hv. simpl. f_equal.
    rewrite (read_lookup row j v) in Hent by (done || lia).
    rewrite Hent. destruct (decide _) as [(_ & _ & Hf)|Hn].
    + rewrite Hf. by rewrite truthy_not_zero.
    + destruct (truthy (entry (tetromino s) _ _)) eqn:Ht; [|done].
      exfalso. apply Hn. split; [lia|]. split; [lia|done].
Qed.

Lemma render_board_witness :
  well_formed (grid resting) ∧ 0 ≤ y (position resting)
  ∧ ∃ colours, render resting = Ok colours
               ∧ colours !! 10%nat = Some "#000"
               ∧ colours !! 11%nat = Some "#fff".
Proof.
  assert (Hwf : well_formed (grid resting)).
  { split; [reflexivity | repeat constructor]. }
  assert (Hy : 0 ≤ y (position resting)) by (simpl; lia).
  split; [exact Hwf|]. split; [exact Hy|].
  destruct (render_board resting Hwf Hy) as (colours & Hr & _ & Hcells).
  exists colours. split; [exact Hr|]. split.
  - exact (Hcells 1 0 ltac:(split; reflexivity || discriminate)
             ltac:(split; reflexivity || discriminate)).
  - exact (Hcells 1 1 ltac:(split; reflexivity || discriminate)
             ltac:(split; reflexivity || discriminate)).
Defined.

(** ** Full rows never stay *)

(** X22.  A grid in which every row contains an empty cell stays so under
    every event that is handled without an exception: moves and rotations
    keep the grid, a restart empties it, and a drop that locks the piece
    stores the grid only after [clearRows] has removed the full rows. *)
Theorem no_full_row_preserved (random : Q) (e : Event) (s s' : State) :
  Forall (λ row, has_empty_cell row = true) (grid s) →
  handle random e s = Ok s' →
  Forall (λ row, has_empty_cell row = true) (grid s').
Proof.
  intros Hall.
  assert (Hmove : ∀ dir, moveTetromino dir s = Ok s' →
            Forall (λ row, has_empty_cell row = true) (grid s')).
  { intros dir. unfold moveTetromino. destruct (isPaused s || gameOver s).
    { by intros [= <-]. }
    destruct (isColliding _ _ _) as [[]|]; simpl; [| |done]; by intros [= <-]. }
  assert (Hrot : rotateTetromino s = Ok s' →
            Forall (λ row, has_empty_cell row = true) (grid s')).
  { unfold rotateTetromino. destruct (isPaused s || gameOver s).
    { by intros [= <-]. }
    destruct (rotate (tetromino s)) as [rotated|]; simpl; [|done].
    destruct (isColliding _ _ _) as [[]|]; simpl; [| |done]; by intros [= <-]. }
  assert (Hdrop : dropTetromino random s = Ok s' →
            Forall (λ row, has_empty_cell row = true) (grid s')).
  { unfold dropTetromino. destruct (isPaused s || gameOver s).
    { by intros [= <-]. }
    destruct (isColliding _ _ _) as [[]|]; simpl; [| |done].
    - destruct (decide (y (position s) = 0)).
      { by intros [= <-]. }
      destruct (merge (grid s) (tetromino s) (position s)) as [mergedGrid|];
        simpl; [|done].
      pose proof (clearRows_rows_have_empty_cell mergedGrid) as Hclear.
      destruct (randomTetromino random); [|done]. intros [= <-]. exact Hclear.
    - by intros [= <-]. }
  destruct e as [key| | |]; simpl.
  - unfold handleKeyPress. destruct (isPaused s || gameOver s).
    { by intros [= <-]. }
    destruct key; [apply Hmove | apply Hmove | apply Hdrop | apply Hrot
                  | by intros [= <-]].
  - unfold interval. destruct (negb (isPaused s) && negb (gameOver s));
      [apply Hdrop | by intros [= <-]].
  - by intros [= <-].
  - unfold handleRestart. destruct (randomTetromino random); [|done].
    intros [= <-]. simpl. apply Forall_replicate. reflexivity.
Qed.

Lemma no_full_row_preserved_witness :
  Forall (λ row, has_empty_cell row = true) (grid resting)
  ∧ ∃ s', handle 0 Timer resting = Ok s'
          ∧ Forall (λ row, has_empty_cell row = true) (grid s').
Proof.
  assert (Hall : Forall (λ row, has_empty_cell row = true) (grid resting)).
  { repeat constructor. }
  split; [exact Hall|]. eexists.
  assert (Hh : handle 0 Timer resting = Ok _) by reflexivity.
  split; [exact Hh|].
  exact (no_full_row_preserved 0 Timer resting _ Hall Hh).
Defined.
